(** * SpeedMeter: sampling, smoothing and usage accounting

    A shallow embedding of the engine of [speedmeter.py]: the usage ledger
    ([UsageStore]), its repository ([UsageRepository]) and the sampling
    thread ([NetMonitor]).

    Conventions of the embedding.
    - Python [int] is [Z]; Python [float] (times, rates, smoothing) is the
      exact rational [Q]: rounding, infinities and NaN are not modelled.
    - A [dict] with string keys is a [gmap string _], a [set] of names is a
      [gset string], a [deque] is a [list] whose head is the left end.
    - A method is a computation in the monad [M S]: it receives the object's
      state, returns a value or raises, and leaves a state behind.  The state
      reached when an exception is raised is kept, as in Python.
    - What the operating system answers ([time.time()], [psutil], the disk,
      the callback) is an input of each step. *)

From Stdlib Require Import ZArith QArith Qminmax String Ascii Sorted.
From stdpp Require Import base gmap strings list fin_maps fin_sets.

#[local] Set Warnings "-register-all".
#[local] Open Scope Z_scope.

(** ** Exceptions and the state monad *)

Inductive exn : Type :=
  | KeyError
  | AttributeError
  | TypeError
  | OSError
  | JSONDecodeError.

Inductive result (A : Type) : Type :=
  | Ok (a : A)
  | Raise (e : exn).
Arguments Ok {A} a.
Arguments Raise {A} e.

Definition M (S A : Type) : Type := S → result A * S.

#[export] Instance M_ret {S} : MRet (M S) := λ A a s, (Ok a, s).
#[export] Instance M_bind {S} : MBind (M S) := λ A B f c s,
  match c s with
  | (Ok a, s') => f a s'
  | (Raise e, s') => (Raise e, s')
  end.

Definition raise {S A} (e : exn) : M S A := λ s, (Raise e, s).
Definition get {S} : M S S := λ s, (Ok s, s).
Definition put {S} (s : S) : M S unit := λ _, (Ok tt, s).
Definition modify {S} (f : S → S) : M S unit := λ s, (Ok tt, f s).

(** [try: c except Exception: h] *)
Definition try_except {S A} (c : M S A) (h : M S A) : M S A := λ s,
  match c s with
  | (Ok a, s') => (Ok a, s')
  | (Raise _, s') => h s'
  end.

(** Run [c] on a part of the state selected by [proj] and written back by
    [upd] (a method call on an attribute of [self]). *)
Definition zoom {S T A} (proj : S → T) (upd : T → S → S) (c : M T A) : M S A :=
  λ s, let '(r, t) := c (proj s) in (r, upd t s).

(** ** Date keys *)

Record datetime : Type := { year : nat; month : nat; day : nat }.

Definition digit (n : nat) : ascii := ascii_of_nat (48 + n `mod` 10)%nat.

Definition dec2 (n : nat) : string :=
  String (digit (n / 10)) (String (digit n) EmptyString).

Definition dec4 (n : nat) : string :=
  String (digit (n / 1000)) (String (digit (n / 100)) (dec2 n)).

(** [dt.strftime("%Y-%m-%d")] and [dt.strftime("%Y-%m")], for years of up
    to four digits, zero padded. *)
Definition strftime_Ymd (dt : datetime) : string :=
  (dec4 (year dt) +:+ "-" +:+ dec2 (month dt) +:+ "-" +:+ dec2 (day dt))%string.

Definition strftime_Ym (dt : datetime) : string :=
  (dec4 (year dt) +:+ "-" +:+ dec2 (month dt))%string.

Section Ledger.

(** What [datetime.datetime.now()] returns when a method is called without
    a [dt]. *)
Variable clock : datetime.

Definition today_key (dt : option datetime) : string :=
  strftime_Ymd (default clock dt).

Definition month_key (dt : option datetime) : string :=
  strftime_Ym (default clock dt).

(** ** Data models *)

Record UsageTotals : Type :=
  { download_bytes : Z; upload_bytes : Z }.

(** [by_day]: { "YYYY-MM-DD": {"down": int, "up": int} } *)
Record UsageStore : Type :=
  { by_day : gmap string (gmap string Z) }.

Definition UsageStore_new : UsageStore := {| by_day := ∅ |}.

Definition zero_entry : gmap string Z := <["down" := 0]> (<["up" := 0]> ∅).

(** [self.by_day[dkey][field] += n] *)
Definition by_day_iadd (dkey field : string) (n : Z) : M UsageStore unit :=
  s ← get;
  match by_day s !! dkey with
  | None => raise KeyError
  | Some d =>
      match d !! field with
      | None => raise KeyError
      | Some v => put {| by_day := <[dkey := <[field := v + n]> d]> (by_day s) |}
      end
  end.

Definition add_usage (dt : datetime) (down_delta up_delta : Z) : M UsageStore unit :=
  let dkey := today_key (Some dt) in
  s ← get;
  match by_day s !! dkey with
  | None => put {| by_day := <[dkey := zero_entry]> (by_day s) |}
  | Some _ => mret tt
  end;;
  by_day_iadd dkey "down" (Z.max 0 down_delta);;
  by_day_iadd dkey "up" (Z.max 0 up_delta).

(** [UsageTotals(d.get("down", 0), d.get("up", 0))] *)
Definition entry_totals (d : gmap string Z) : UsageTotals :=
  {| download_bytes := default 0 (d !! "down");
     upload_bytes := default 0 (d !! "up") |}.

Definition get_today (dt : option datetime) : M UsageStore UsageTotals :=
  let dkey := today_key dt in
  s ← get;
  match by_day s !! dkey with
  | Some d => mret (entry_totals d)
  | None => mret {| download_bytes := 0; upload_bytes := 0 |}
  end.

(** One iteration of the loop of [get_month] over [by_day.items()]. *)
Definition month_step (mkey : string) (acc : Z * Z) (item : string * gmap string Z)
  : Z * Z :=
  let '(total_down, total_up) := acc in
  let '(day, vals) := item in
  if String.prefix mkey day then
    (total_down + default 0 (vals !! "down"), total_up + default 0 (vals !! "up"))
  else (total_down, total_up).

Definition get_month (dt : option datetime) : M UsageStore UsageTotals :=
  let mkey := month_key dt in
  s ← get;
  let '(total_down, total_up) :=
    foldl (month_step mkey) (0, 0) (map_to_list (by_day s)) in
  mret {| download_bytes := total_down; upload_bytes := total_up |}.

Definition clear_today (dt : option datetime) : M UsageStore unit :=
  let dkey := today_key dt in
  s ← get;
  match by_day s !! dkey with
  | Some _ => put {| by_day := <[dkey := zero_entry]> (by_day s) |}
  | None => mret tt
  end.

End Ledger.

(** ** Persistence *)

(** A value as [json.load] returns it and [json.dump] accepts it. *)
Inductive json : Type :=
  | JNull
  | JBool (b : bool)
  | JInt (z : Z)
  | JFloat (q : Q)
  | JStr (s : string)
  | JList (l : list json)
  | JDict (m : gmap string json).

(** The content of a file: a JSON document, given by its value, or text
    that [json.load] rejects (empty, truncated, not JSON).  [json.dump]
    and [json.load] are the library's; they are taken to write and read
    back the same value. *)
Inductive file : Type :=
  | NotJson
  | Document (v : json).

(** Apply [f] to every value of a dict; [None] if it fails on one. *)
Definition dict_traverse {A B} (f : A → option B) (m : gmap string A)
  : option (gmap string B) :=
  if decide (map_Forall (λ _ v, is_Some (f v)) m) then Some (omap f m) else None.

Definition as_int (v : json) : option Z :=
  match v with JInt z => Some z | _ => None end.

Definition as_entry (v : json) : option (gmap string Z) :=
  match v with JDict d => dict_traverse as_int d | _ => None end.

(** The values that are a [Dict[str, Dict[str, int]]]. *)
Definition as_by_day (v : json) : option (gmap string (gmap string Z)) :=
  match v with JDict m => dict_traverse as_entry m | _ => None end.

Definition by_day_value (m : gmap string (gmap string Z)) : json :=
  JDict ((λ d : gmap string Z, JDict (JInt <$> d)) <$> m).

(** A [UsageStore] instance as [from_json] builds it: [by_day] is whatever
    the document held, a ledger of the declared type or any other value. *)
Inductive StoreObject : Type :=
  | Ledger (s : UsageStore)
  | Unchecked (v : json).

Definition to_json (s : UsageStore) : json :=
  JDict {[ "by_day" := by_day_value (by_day s) ]}.

(** [UsageStore(by_day=data.get("by_day", {}))] *)
Definition from_json (data : json) : result StoreObject :=
  match data with
  | JDict m =>
      let v := default (JDict ∅) (m !! "by_day") in
      match as_by_day v with
      | Some bd => Ok (Ledger {| by_day := bd |})
      | None => Ok (Unchecked v)
      end
  | _ => Raise AttributeError
  end.

Definition of_result {S A} (r : result A) : M S A := λ s, (r, s).

Record UsageRepository : Type := { path : string }.

(** What the disk does to one [save]. *)
Inductive disk_fault : Type :=
  | NoFault
  | OpenFails      (* [open(tmp, "w")] raises *)
  | DumpFails      (* [json.dump] raises after a partial write *)
  | ReplaceFails.  (* [os.replace] raises *)

Definition json_load (f : file) : result json :=
  match f with
  | NotJson => Raise JSONDecodeError
  | Document v => Ok v
  end.

(** [readable]: whether [open(self.path, "r")] succeeds. *)
Definition load (readable : bool) (r : UsageRepository)
  : M (gmap string file) StoreObject :=
  fs ← get;
  match fs !! path r with
  | None => mret (Ledger UsageStore_new)
  | Some f =>
      try_except
        ((if readable then mret tt else raise OSError);;
         data ← of_result (json_load f);
         of_result (from_json data))
        (mret (Ledger UsageStore_new))
  end.

Definition save (fault : disk_fault) (r : UsageRepository) (store : UsageStore)
  : M (gmap string file) unit :=
  let tmp := (path r +:+ ".tmp")%string in
  match fault with
  | OpenFails => raise OSError
  | DumpFails => modify (insert tmp NotJson);; raise OSError
  | ReplaceFails => modify (insert tmp (Document (to_json store)));; raise OSError
  | NoFault =>
      modify (insert tmp (Document (to_json store)));;
      modify (λ fs, match fs !! tmp with
                    | Some f => <[path r := f]> (delete tmp fs)
                    | None => fs
                    end)
  end.

(** ** Network monitor *)

#[local] Open Scope Q_scope.

Record Config : Type :=
  { smoothing_seconds : Q;          (* 0 disables EMA *)
    nic_name : option string }.     (* None => auto *)

(** The fields of [psutil]'s [snicstats] and [snetio] that are read. *)
Record snicstats : Type := { isup : bool }.
Record snetio : Type := { bytes_sent : Z; bytes_recv : Z }.

Record NetMonitor : Type :=
  { repo : UsageRepository;
    on_update : bool;               (* whether a callback is registered *)
    interval : Q;
    _last_pernic : gmap string (Z * Z);
    _included_ifaces : gset string;
    _last_iface_refresh : Q;
    current_down_bps : Q;
    current_up_bps : Q;
    _ema_down_bps : option Q;
    _ema_up_bps : option Q;
    config : Config;
    _hist_down : list (Q * Q);      (* (timestamp, bps), oldest first *)
    _hist_up : list (Q * Q);
    avg_down_bps_10s : Q;
    avg_up_bps_10s : Q;
    store : UsageStore }.

Definition POLL_INTERVAL_SEC : Q := 1 # 2.

(** [NetMonitor.__init__]; [loaded] is what [self.repo.load()] returned. *)
Definition NetMonitor_init (r : UsageRepository) (callback : bool) (i : Q)
    (c : Config) (loaded : UsageStore) : NetMonitor :=
  {| repo := r; on_update := callback; interval := i;
     _last_pernic := ∅; _included_ifaces := ∅; _last_iface_refresh := 0;
     current_down_bps := 0; current_up_bps := 0;
     _ema_down_bps := None; _ema_up_bps := None;
     config := c;
     _hist_down := []; _hist_up := [];
     avg_down_bps_10s := 0; avg_up_bps_10s := 0;
     store := loaded |}.

(** Assignments to the attributes that change after [__init__]. *)
Definition set_last_pernic (v : gmap string (Z * Z)) (m : NetMonitor) : NetMonitor :=
  {| repo := repo m; on_update := on_update m; interval := interval m;
     _last_pernic := v; _included_ifaces := _included_ifaces m;
     _last_iface_refresh := _last_iface_refresh m;
     current_down_bps := current_down_bps m; current_up_bps := current_up_bps m;
     _ema_down_bps := _ema_down_bps m; _ema_up_bps := _ema_up_bps m;
     config := config m; _hist_down := _hist_down m; _hist_up := _hist_up m;
     avg_down_bps_10s := avg_down_bps_10s m; avg_up_bps_10s := avg_up_bps_10s m;
     store := store m |}.

Definition set_included_ifaces (v : gset string) (m : NetMonitor) : NetMonitor :=
  {| repo := repo m; on_update := on_update m; interval := interval m;
     _last_pernic := _last_pernic m; _included_ifaces := v;
     _last_iface_refresh := _last_iface_refresh m;
     current_down_bps := current_down_bps m; current_up_bps := current_up_bps m;
     _ema_down_bps := _ema_down_bps m; _ema_up_bps := _ema_up_bps m;
     config := config m; _hist_down := _hist_down m; _hist_up := _hist_up m;
     avg_down_bps_10s := avg_down_bps_10s m; avg_up_bps_10s := avg_up_bps_10s m;
     store := store m |}.

Definition set_last_iface_refresh (v : Q) (m : NetMonitor) : NetMonitor :=
  {| repo := repo m; on_update := on_update m; interval := interval m;
     _last_pernic := _last_pernic m; _included_ifaces := _included_ifaces m;
     _last_iface_refresh := v;
     current_down_bps := current_down_bps m; current_up_bps := current_up_bps m;
     _ema_down_bps := _ema_down_bps m; _ema_up_bps := _ema_up_bps m;
     config := config m; _hist_down := _hist_down m; _hist_up := _hist_up m;
     avg_down_bps_10s := avg_down_bps_10s m; avg_up_bps_10s := avg_up_bps_10s m;
     store := store m |}.

Definition set_current_bps (down up : Q) (m : NetMonitor) : NetMonitor :=
  {| repo := repo m; on_update := on_update m; interval := interval m;
     _last_pernic := _last_pernic m; _included_ifaces := _included_ifaces m;
     _last_iface_refresh := _last_iface_refresh m;
     current_down_bps := down; current_up_bps := up;
     _ema_down_bps := _ema_down_bps m; _ema_up_bps := _ema_up_bps m;
     config := config m; _hist_down := _hist_down m; _hist_up := _hist_up m;
     avg_down_bps_10s := avg_down_bps_10s m; avg_up_bps_10s := avg_up_bps_10s m;
     store := store m |}.

Definition set_ema_bps (down up : option Q) (m : NetMonitor) : NetMonitor :=
  {| repo := repo m; on_update := on_update m; interval := interval m;
     _last_pernic := _last_pernic m; _included_ifaces := _included_ifaces m;
     _last_iface_refresh := _last_iface_refresh m;
     current_down_bps := current_down_bps m; current_up_bps := current_up_bps m;
     _ema_down_bps := down; _ema_up_bps := up;
     config := config m; _hist_down := _hist_down m; _hist_up := _hist_up m;
     avg_down_bps_10s := avg_down_bps_10s m; avg_up_bps_10s := avg_up_bps_10s m;
     store := store m |}.

Definition set_config (v : Config) (m : NetMonitor) : NetMonitor :=
  {| repo := repo m; on_update := on_update m; interval := interval m;
     _last_pernic := _last_pernic m; _included_ifaces := _included_ifaces m;
     _last_iface_refresh := _last_iface_refresh m;
     current_down_bps := current_down_bps m; current_up_bps := current_up_bps m;
     _ema_down_bps := _ema_down_bps m; _ema_up_bps := _ema_up_bps m;
     config := v; _hist_down := _hist_down m; _hist_up := _hist_up m;
     avg_down_bps_10s := avg_down_bps_10s m; avg_up_bps_10s := avg_up_bps_10s m;
     store := store m |}.

Definition set_hist (down up : list (Q * Q)) (m : NetMonitor) : NetMonitor :=
  {| repo := repo m; on_update := on_update m; interval := interval m;
     _last_pernic := _last_pernic m; _included_ifaces := _included_ifaces m;
     _last_iface_refresh := _last_iface_refresh m;
     current_down_bps := current_down_bps m; current_up_bps := current_up_bps m;
     _ema_down_bps := _ema_down_bps m; _ema_up_bps := _ema_up_bps m;
     config := config m; _hist_down := down; _hist_up := up;
     avg_down_bps_10s := avg_down_bps_10s m; avg_up_bps_10s := avg_up_bps_10s m;
     store := store m |}.

Definition set_avg_bps_10s (down up : Q) (m : NetMonitor) : NetMonitor :=
  {| repo := repo m; on_update := on_update m; interval := interval m;
     _last_pernic := _last_pernic m; _included_ifaces := _included_ifaces m;
     _last_iface_refresh := _last_iface_refresh m;
     current_down_bps := current_down_bps m; current_up_bps := current_up_bps m;
     _ema_down_bps := _ema_down_bps m; _ema_up_bps := _ema_up_bps m;
     config := config m; _hist_down := _hist_down m; _hist_up := _hist_up m;
     avg_down_bps_10s := down; avg_up_bps_10s := up;
     store := store m |}.

Definition set_store (v : UsageStore) (m : NetMonitor) : NetMonitor :=
  {| repo := repo m; on_update := on_update m; interval := interval m;
     _last_pernic := _last_pernic m; _included_ifaces := _included_ifaces m;
     _last_iface_refresh := _last_iface_refresh m;
     current_down_bps := current_down_bps m; current_up_bps := current_up_bps m;
     _ema_down_bps := _ema_down_bps m; _ema_up_bps := _ema_up_bps m;
     config := config m; _hist_down := _hist_down m; _hist_up := _hist_up m;
     avg_down_bps_10s := avg_down_bps_10s m; avg_up_bps_10s := avg_up_bps_10s m;
     store := v |}.

(** *** Interface selection *)

Definition exclude_prefixes : list string :=
  [ "Loopback"; "Software Loopback"; "isatap"; "Teredo"; "vEthernet"; "VMware";
    "VirtualBox"; "Npcap"; "NPF_"; "WAN Miniport"; "Bluetooth"; "Hyper-V" ]%string.

(** [name.startswith(prefixes)] for a tuple of prefixes *)
Definition startswith_any (prefixes : list string) (name : string) : bool :=
  existsb (λ p, String.prefix p name) prefixes.

(** One iteration of the loop over [stats.items()]. *)
Definition include_step (all_counters : gmap string snetio)
    (name : string) (st : snicstats) (included : gset string) : gset string :=
  if negb (isup st) then included
  else if startswith_any exclude_prefixes name then included
  else if decide (name ∈ dom all_counters) then {[ name ]} ∪ included
  else included.

Definition filter_ifaces (stats : gmap string snicstats)
    (all_counters : gmap string snetio) : gset string :=
  map_fold (include_step all_counters) ∅ stats.

(** [if self.config.nic_name and self.config.nic_name in included] *)
Definition restrict_to_nic (nic : option string) (included : gset string)
  : gset string :=
  match nic with
  | Some n => if decide (n ≠ ""%string ∧ n ∈ included) then {[ n ]} else included
  | None => included
  end.

Definition select_ifaces (c : Config) (stats : gmap string snicstats)
    (all_counters : gmap string snetio) : gset string :=
  restrict_to_nic (nic_name c) (filter_ifaces stats all_counters).

(** Initialize last counters for any new iface. *)
Definition seed_step (all_counters : gmap string snetio) (name : string)
    (last : gmap string (Z * Z)) : gmap string (Z * Z) :=
  match all_counters !! name with
  | Some c =>
      if decide (name ∈ dom last) then last
      else <[name := (bytes_recv c, bytes_sent c)]> last
  | None => last
  end.

(** Drop removed ifaces. *)
Definition drop_step (included : gset string) (last : gmap string (Z * Z))
    (name : string) : gmap string (Z * Z) :=
  if decide (name ∈ included) then last else delete name last.

Definition _refresh_ifaces (stats_read : result (gmap string snicstats))
    (counters_read : result (gmap string snetio)) : M NetMonitor unit :=
  stats ← of_result stats_read;
  all_counters ← of_result counters_read;
  m ← get;
  let included := select_ifaces (config m) stats all_counters in
  let seeded := set_fold (seed_step all_counters) (_last_pernic m) included in
  let kept := foldl (drop_step included) seeded (elements (dom seeded)) in
  modify (set_last_pernic kept);;
  modify (set_included_ifaces included).

(** *** Counter differencing *)

(** The body of the loop over [self._included_ifaces]; the accumulator is
    [(self._last_pernic, down_delta, up_delta)]. *)
Definition sample_step (pernic : gmap string snetio)
    (acc : gmap string (Z * Z) * Z * Z) (name : string)
  : gmap string (Z * Z) * Z * Z :=
  let '(last, down_delta, up_delta) := acc in
  match pernic !! name with
  | None => acc
  | Some c =>
      let prev := default (bytes_recv c, bytes_sent c) (last !! name) in
      let d_down := Z.max 0 (bytes_recv c - prev.1) in
      let d_up := Z.max 0 (bytes_sent c - prev.2) in
      (<[name := (bytes_recv c, bytes_sent c)]> last,
       (down_delta + d_down)%Z, (up_delta + d_up)%Z)
  end.

Definition sample_ifaces (pernic : gmap string snetio) (included : gset string)
    (last : gmap string (Z * Z)) : gmap string (Z * Z) * Z * Z :=
  foldl (sample_step pernic) (last, 0%Z, 0%Z) (elements included).

(** [max(0.0, delta / elapsed)] *)
Definition raw_bps (delta : Z) (elapsed : Q) : Q :=
  Qmax 0 (inject_Z delta / elapsed).

(** *** Smoothing via EMA *)

Definition smooth (raw_down_bps raw_up_bps : Q) : M NetMonitor unit :=
  m ← get;
  let s := Qmax 0 (smoothing_seconds (config m)) in
  if Qlt_le_dec 0 s then
    let alpha := Qmin 1 (Qmax (1 # 100) (interval m / s)) in
    match _ema_down_bps m with
    | None => modify (set_ema_bps (Some raw_down_bps) (Some raw_up_bps))
    | Some ema_down =>
        let down := alpha * raw_down_bps + (1 - alpha) * ema_down in
        match _ema_up_bps m with
        | Some ema_up =>
            let up := alpha * raw_up_bps + (1 - alpha) * ema_up in
            modify (set_ema_bps (Some down) (Some up))
        | None => modify (set_ema_bps (Some down) None);; raise TypeError
        end
    end;;
    m ← get;
    modify (set_current_bps (default 0 (_ema_down_bps m)) (default 0 (_ema_up_bps m)))
  else modify (set_current_bps raw_down_bps raw_up_bps).

(** *** Rolling 10 s averages *)

(** [while hist and hist[0][0] < tcut: hist.popleft()] *)
Fixpoint evict (tcut : Q) (hist : list (Q * Q)) : list (Q * Q) :=
  match hist with
  | [] => []
  | (t, v) :: rest => if Qlt_le_dec t tcut then evict tcut rest else hist
  end.

(** [sum(v for _, v in hist) / len(hist)], or [0.0] for an empty deque *)
Definition mean_bps (hist : list (Q * Q)) : Q :=
  match hist with
  | [] => 0
  | _ => foldl (λ acc e, acc + e.2) 0 hist / inject_Z (Z.of_nat (length hist))
  end.

Definition roll_hist (now raw_bps : Q) (hist : list (Q * Q)) : list (Q * Q) :=
  let tcut := now - 10 in
  evict tcut (hist ++ [(now, raw_bps)]).

Definition roll (now raw_down_bps raw_up_bps : Q) : M NetMonitor unit :=
  m ← get;
  let hist_down := roll_hist now raw_down_bps (_hist_down m) in
  let hist_up := roll_hist now raw_up_bps (_hist_up m) in
  modify (set_hist hist_down hist_up);;
  modify (set_avg_bps_10s (mean_bps hist_down) (mean_bps hist_up)).

(** *** The sampling thread *)

(** The thread's view of the world: the monitor object, the local variable
    [last_time] of [run], and the files on disk. *)
Record World : Type :=
  { self : NetMonitor;
    last_time : Q;
    disk : gmap string file }.

Definition set_self (v : NetMonitor) (w : World) : World :=
  {| self := v; last_time := last_time w; disk := disk w |}.
Definition set_last_time (v : Q) (w : World) : World :=
  {| self := self w; last_time := v; disk := disk w |}.
Definition set_disk (v : gmap string file) (w : World) : World :=
  {| self := self w; last_time := last_time w; disk := v |}.

Definition on_self {A} (c : M NetMonitor A) : M World A := zoom self set_self c.

(** What the environment answers during one iteration of the loop. *)
Record TickEnv : Type :=
  { os_time : Q;                                        (* [time.time()] after the sleep *)
    os_if_stats : result (gmap string snicstats);       (* read if a refresh is due *)
    os_io_counters_refresh : result (gmap string snetio);
    os_io_counters : result (gmap string snetio);       (* [psutil.net_io_counters(pernic=True)] *)
    os_today : datetime;                                (* [datetime.datetime.now()] *)
    os_disk : disk_fault;                               (* met by a save in this tick *)
    callback_raises : bool }.

(** [int(x)] truncates towards zero. *)
Definition py_int (x : Q) : Z := (Qnum x ÷ Zpos (Qden x))%Z.

(** [self.repo.save(self.store)] *)
Definition save_store (fault : disk_fault) : M World unit :=
  w ← get;
  zoom disk set_disk (save fault (repo (self w)) (store (self w))).

(** Periodically refresh included interfaces (every 10 seconds). *)
Definition refresh_if_due (e : TickEnv) : M World unit :=
  let now := os_time e in
  w ← get;
  if Qlt_le_dec 10 (now - _last_iface_refresh (self w)) then
    on_self (_refresh_ifaces (os_if_stats e) (os_io_counters_refresh e));;
    on_self (modify (set_last_iface_refresh now))
  else mret tt.

(** The measurement half of an iteration: clock, interface refresh, counter
    read and differencing.  Returns [(down_delta, up_delta)] and
    [(raw_down_bps, raw_up_bps)]. *)
Definition measure (e : TickEnv) : M World ((Z * Z) * (Q * Q)) :=
  let now := os_time e in
  w ← get;
  let elapsed := Qmax (1 # 1000000) (now - last_time w) in
  modify (set_last_time now);;
  refresh_if_due e;;
  pernic ← of_result (os_io_counters e);
  w ← get;
  let sampled :=
    sample_ifaces pernic (_included_ifaces (self w)) (_last_pernic (self w)) in
  let down_delta := sampled.1.2 in
  let up_delta := sampled.2 in
  on_self (modify (set_last_pernic sampled.1.1));;
  mret ((down_delta, up_delta), (raw_bps down_delta elapsed, raw_bps up_delta elapsed)).

(** The rest of the iteration: rate estimators, ledger, periodic save and
    callback. *)
Definition publish (e : TickEnv) (deltas : Z * Z) (raw : Q * Q) : M World unit :=
  let now := os_time e in
  on_self (smooth raw.1 raw.2);;
  on_self (roll now raw.1 raw.2);;
  on_self (zoom store set_store (add_usage (os_today e) (os_today e) deltas.1 deltas.2));;
  (if decide (py_int now `mod` 10 = 0)%Z then save_store (os_disk e) else mret tt);;
  w ← get;
  if on_update (self w) then
    try_except (if callback_raises e then raise TypeError else mret tt) (mret tt)
  else mret tt.

(** One iteration of [while not self._stop_evt.is_set()]. *)
Definition tick (e : TickEnv) : M World unit :=
  '(deltas, raw) ← measure e;
  publish e deltas raw.

(** The iterations made until the stop event is seen. *)
Fixpoint run_loop (ticks : list TickEnv) : M World unit :=
  match ticks with
  | [] => mret tt
  | e :: rest => tick e;; run_loop rest
  end.

Record StartEnv : Type :=
  { start_time : Q;
    start_if_stats : result (gmap string snicstats);
    start_io_counters : result (gmap string snetio) }.

(** The statements of [run] before the loop. *)
Definition run_start (s : StartEnv) : M World unit :=
  modify (set_last_time (start_time s));;
  on_self (_refresh_ifaces (start_if_stats s) (start_io_counters s)).

(** [NetMonitor.run]: an exception that leaves it ends the thread. *)
Definition run (s : StartEnv) (ticks : list TickEnv) (exit_disk : disk_fault)
  : M World unit :=
  run_start s;;
  run_loop ticks;;
  try_except (save_store exit_disk) (mret tt).

(** *** Preferences *)

(** [on_save] of the preferences dialog, as far as the monitor sees it.  The
    dialog first writes the fields of the [Config] object, which is the
    object [self.monitor.config] refers to, and later applies them live. *)
Definition prefs_write_config (smoothing : Q) (sel : option string)
  : M NetMonitor unit :=
  modify (set_config {| smoothing_seconds := smoothing; nic_name := sel |}).

Definition prefs_apply_live (stats_read : result (gmap string snicstats))
    (counters_read : result (gmap string snetio)) : M NetMonitor unit :=
  modify (set_ema_bps None None);;
  _refresh_ifaces stats_read counters_read.

(** [on_save] as a whole.  Between writing the fields and applying them
    live it calls [self.config.save()], whose [ensure_data_dir()] stands
    outside the [try] of [Config.save]: [data_dir] is what [os.makedirs]
    answers there. *)
Definition on_save (smoothing : Q) (sel : option string) (data_dir : result unit)
    (stats_read : result (gmap string snicstats))
    (counters_read : result (gmap string snetio)) : M NetMonitor unit :=
  prefs_write_config smoothing sel;;
  of_result data_dir;;
  prefs_apply_live stats_read counters_read.

(** The Save button of the dialog.  Tk reports an exception that leaves a
    button command and goes on: the handler ends where it raised, and the
    sampling thread does not see the exception. *)
Definition on_save_clicked (smoothing : Q) (sel : option string)
    (data_dir : result unit) (stats_read : result (gmap string snicstats))
    (counters_read : result (gmap string snetio)) : M World unit :=
  try_except (on_self (on_save smoothing sel data_dir stats_read counters_read))
    (mret tt).

(** What happens to the monitor, one step at a time: iterations of the
    sampling thread and the two halves of a preferences save. *)
Inductive event : Type :=
  | Tick (e : TickEnv)
  | PrefsWritten (smoothing : Q) (sel : option string)
  | PrefsApplied (stats_read : result (gmap string snicstats))
                 (counters_read : result (gmap string snetio)).

Definition step (ev : event) : M World unit :=
  match ev with
  | Tick e => tick e
  | PrefsWritten smoothing sel => on_self (prefs_write_config smoothing sel)
  | PrefsApplied stats_read counters_read =>
      (* an exception here ends [on_save] in the UI thread, not the sampler *)
      try_except (on_self (prefs_apply_live stats_read counters_read)) (mret tt)
  end.

Fixpoint steps (evs : list event) : M World unit :=
  match evs with
  | [] => mret tt
  | ev :: rest => step ev;; steps rest
  end.

(** *** Clearing today's data *)

(** [SpeedMeterApp._on_clear_today]: the tray menu's "Clear Today's Data",
    on the monitor's store and the repository the monitor was given. *)
Definition _on_clear_today (clock : datetime) (fault : disk_fault) : M World unit :=
  try_except
    (on_self (zoom store set_store (clear_today clock None));;
     save_store fault)
    (mret tt).

(** *** Unit scaling *)

(** The loop shared by [human_readable_speed] and [fmt_bytes] of the
    dashboard: [while v >= 1024.0 and idx < len(units) - 1: v /= 1024.0;
    idx += 1].  [above] is the number of units above [idx]; the formatting
    of the result as text is not modelled. *)
Fixpoint scale_loop (above : nat) (v : Q) (idx : nat) : Q * nat :=
  match above with
  | O => (v, idx)
  | S above' =>
      if Qlt_le_dec v 1024 then (v, idx)
      else scale_loop above' (v / 1024) (S idx)
  end.

(** Five units, ["B"] to ["T"] or ["TB"]; the loop starts at index 0. *)
Definition scale_units (v : Q) : Q * nat := scale_loop 4 v 0.

(** ** Reference definitions, following the specification *)

Definition sum_Z (l : list Z) : Z := foldr Z.add 0%Z l.

(** The totals recorded for one day-key; zero when the day has no entry. *)
Definition totals_of_day (s : UsageStore) (dkey : string) : UsageTotals :=
  match by_day s !! dkey with
  | Some d => entry_totals d
  | None => {| download_bytes := 0; upload_bytes := 0 |}
  end.

(** The day-keys of the ledger that share the month prefix [mkey]. *)
Definition days_of_month (s : UsageStore) (mkey : string) : list string :=
  filter (λ dkey, String.prefix mkey dkey = true) (elements (dom (by_day s))).

Definition month_totals_spec (s : UsageStore) (mkey : string) : UsageTotals :=
  {| download_bytes :=
       sum_Z ((λ dkey, download_bytes (totals_of_day s dkey)) <$> days_of_month s mkey);
     upload_bytes :=
       sum_Z ((λ dkey, upload_bytes (totals_of_day s dkey)) <$> days_of_month s mkey) |}.

(** What [filter_ifaces] lets through. *)
Definition selectable (stats : gmap string snicstats)
    (all_counters : gmap string snetio) (name : string) : Prop :=
  ∃ st, stats !! name = Some st ∧ isup st = true
        ∧ startswith_any exclude_prefixes name = false
        ∧ name ∈ dom all_counters.

(** The clamped delta of one interface in one tick, against the baselines
    [last] held before the tick: [max(0, current - previous)] per direction,
    nothing for an interface the read does not list. *)
Definition iface_delta (last : gmap string (Z * Z)) (pernic : gmap string snetio)
    (name : string) : Z * Z :=
  match pernic !! name with
  | None => (0%Z, 0%Z)
  | Some c =>
      let previous := default (bytes_recv c, bytes_sent c) (last !! name) in
      (Z.max 0 (bytes_recv c - previous.1), Z.max 0 (bytes_sent c - previous.2))
  end.

#[local] Instance Qle_decision (x y : Q) : Decision (x <= y) :=
  match Qlt_le_dec y x with
  | left Hlt => right (Qlt_not_le _ _ Hlt)
  | right Hle => left Hle
  end.





(** [c] leaves the part [view] of the state as it was, whether it returns
    or raises. *)
Definition preserves {S A V} (view : S → V) (c : M S A) : Prop :=
  ∀ s r s', c s = (r, s') → view s' = view s.

(** What the smoothing path reads and writes: the exposed rates, the EMA
    state and the configuration. *)
Definition smoothing_view (m : NetMonitor)
  : Q * Q * option Q * option Q * Config :=
  (current_down_bps m, current_up_bps m, _ema_down_bps m, _ema_up_bps m, config m).

(** Every tracked interface has a baseline and no other interface has
    one. *)
Definition baselines_match (m : NetMonitor) : Prop :=
  dom (_last_pernic m) = _included_ifaces m.

(** [c] keeps the invariant [inv], whether it returns or raises. *)
Definition keeps {S A} (inv : S → Prop) (c : M S A) : Prop :=
  ∀ s r s', c s = (r, s') → inv s → inv s'.

(** The same environment with another answer of the callback. *)
Definition with_callback (raises : bool) (e : TickEnv) : TickEnv :=
  {| os_time := os_time e;
     os_if_stats := os_if_stats e;
     os_io_counters_refresh := os_io_counters_refresh e;
     os_io_counters := os_io_counters e;
     os_today := os_today e;
     os_disk := os_disk e;
     callback_raises := raises |}.

(** Everything the monitor exposes as a rate, and the state the rates are
    computed from, is non-negative. *)
Definition rates_nonneg (m : NetMonitor) : Prop :=
  0 <= current_down_bps m ∧ 0 <= current_up_bps m
  ∧ (∀ x, _ema_down_bps m = Some x → 0 <= x)
  ∧ (∀ x, _ema_up_bps m = Some x → 0 <= x)
  ∧ Forall (λ e, 0 <= e.2) (_hist_down m)
  ∧ Forall (λ e, 0 <= e.2) (_hist_up m)
  ∧ 0 <= avg_down_bps_10s m ∧ 0 <= avg_up_bps_10s m.

(** The attributes [rates_nonneg] speaks about. *)
Definition rates_view (m : NetMonitor) :=
  (current_down_bps m, current_up_bps m, _ema_down_bps m, _ema_up_bps m,
   _hist_down m, _hist_up m, avg_down_bps_10s m, avg_up_bps_10s m).

(** ** Example data *)

Definition repo_example : UsageRepository := {| path := "data.json" |}.

(** The file [{"by_day": 5}]. *)
Definition disk_by_day_5 : gmap string file :=
  {[ "data.json"%string := Document (JDict {[ "by_day"%string := JInt 5 ]}) ]}.

Definition nic_up : snicstats := {| isup := true |}.
Definition io (recv sent : Z) : snetio := {| bytes_sent := sent; bytes_recv := recv |}.

(** Three interfaces that are up: a physical one, the loopback and a
    Hyper-V virtual switch. *)
Definition stats_example : gmap string snicstats :=
  {[ "Ethernet"%string := nic_up; "Loopback"%string := nic_up;
     "vEthernet (Default)"%string := nic_up ]}.

Definition counters_example : gmap string snetio :=
  {[ "Ethernet"%string := io 100 50; "Loopback"%string := io 1 1;
     "vEthernet (Default)"%string := io 2 2 ]}.

Definition config_auto : Config := {| smoothing_seconds := 0; nic_name := None |}.

Definition config_pinned (n : string) : Config :=
  {| smoothing_seconds := 0; nic_name := Some n |}.


Definition tick_env (t : Q) (recv sent : Z) (fault : disk_fault) : TickEnv :=
  {| os_time := t;
     os_if_stats := Ok stats_example;
     os_io_counters_refresh := Ok counters_example;
     os_io_counters := Ok {[ "Ethernet"%string := io recv sent ]};
     os_today := {| year := 2024; month := 3; day := 7 |};
     os_disk := fault;
     callback_raises := false |}.

(** A monitor that has been smoothing over 5 s and holds EMA state. *)
Definition world_smoothing : World :=
  {| self :=
       set_ema_bps (Some 999) (Some 111)
         (set_included_ifaces {[ "Ethernet"%string ]}
            (set_last_pernic {[ "Ethernet"%string := (100%Z, 50%Z) ]}
               (NetMonitor_init repo_example true POLL_INTERVAL_SEC
                  {| smoothing_seconds := 5; nic_name := None |} UsageStore_new)));
     last_time := 1;
     disk := ∅ |}.

Definition start_example : StartEnv :=
  {| start_time := 9;
     start_if_stats := Ok stats_example;
     start_io_counters := Ok counters_example |}.

(** A freshly constructed monitor over an empty data directory. *)
Definition world_initial : World :=
  {| self := NetMonitor_init repo_example true POLL_INTERVAL_SEC config_auto
               UsageStore_new;
     last_time := 0;
     disk := ∅ |}.

(** Three ticks, at 9.5 s, 10.0 s and 10.5 s.  The last two have
    [int(now) % 10 == 0] and save; the disk is full at the first of these
    saves. *)
Definition ticks_disk_full : list TickEnv :=
  [ tick_env (19 # 2) 200 60 NoFault;
    tick_env 10 300 70 DumpFails;
    tick_env (21 # 2) 400 80 NoFault ].

(** A tick at which [psutil.net_io_counters] raises. *)
Definition tick_read_fails (t : Q) : TickEnv :=
  {| os_time := t;
     os_if_stats := Ok stats_example;
     os_io_counters_refresh := Ok counters_example;
     os_io_counters := Raise OSError;
     os_today := {| year := 2024; month := 3; day := 7 |};
     os_disk := NoFault;
     callback_raises := false |}.

Definition ticks_read_fails : list TickEnv :=
  [ tick_env (19 # 2) 200 60 NoFault;
    tick_read_fails (41 # 4);
    tick_env 11 400 80 NoFault ].

(** A tick whose counter read lists no interface at all. *)
Definition tick_empty_read (t : Q) : TickEnv :=
  {| os_time := t;
     os_if_stats := Ok stats_example;
     os_io_counters_refresh := Ok counters_example;
     os_io_counters := Ok ∅;
     os_today := {| year := 2024; month := 3; day := 7 |};
     os_disk := NoFault;
     callback_raises := false |}.

(** The world after [run] has started and made one tick at 9.5 s. *)
Definition world_running : World :=
  ((run_start start_example;; run_loop [tick_env (19 # 2) 200 60 NoFault])
     world_initial).2.

(** * Properties *)

(** Unfold the monad's combinators, to expose the state a computation
    threads. *)
Ltac unfold_M :=
  cbv [mbind M_bind mret M_ret get put modify raise of_result try_except zoom
       on_self].

(** ** Usage ledger *)

Section LedgerProperties.

Variable clock : datetime.

Lemma get_today_totals (dt : option datetime) (s : UsageStore) :
  get_today clock dt s = (Ok (totals_of_day s (today_key clock dt)), s).
Proof.
  unfold get_today, totals_of_day, mbind, M_bind, get; simpl.
  destruct (by_day s !! today_key clock dt); reflexivity.
Qed.

Lemma month_step_foldl (mkey : string) (items : list (string * gmap string Z))
    (a b : Z) :
  foldl (month_step mkey) (a, b) items =
  ((a + sum_Z ((λ it, default 0 (it.2 !! "down")) <$>
                 filter (λ it, String.prefix mkey it.1 = true) items))%Z,
   (b + sum_Z ((λ it, default 0 (it.2 !! "up")) <$>
                 filter (λ it, String.prefix mkey it.1 = true) items))%Z).
Proof.
  revert a b. induction items as [|[day vals] items IH]; intros a b; simpl.
  - f_equal; cbn; lia.
  - rewrite filter_cons. simpl.
    destruct (String.prefix mkey day) eqn:Hp.
    + rewrite IH. rewrite decide_True by reflexivity. simpl.
      f_equal; symmetry; apply Z.add_assoc.
    + rewrite IH. rewrite decide_False by discriminate. reflexivity.
Qed.

Lemma sum_Z_cons (x : Z) (l : list Z) : sum_Z (x :: l) = (x + sum_Z l)%Z.
Proof. reflexivity. Qed.

Lemma sum_Z_perm (l k : list Z) : l ≡ₚ k → sum_Z l = sum_Z k.
Proof.
  induction 1; simpl; try lia.
Qed.

Lemma keys_perm (m : gmap string (gmap string Z)) :
  (map_to_list m).*1 ≡ₚ elements (dom m).
Proof.
  apply NoDup_Permutation.
  - apply NoDup_fst_map_to_list.
  - apply NoDup_elements.
  - intros k. rewrite elem_of_elements, elem_of_dom, list_elem_of_fmap.
    split.
    + intros [[k' v] [-> Hin]]. apply elem_of_map_to_list in Hin. eauto.
    + intros [v Hv]. exists (k, v). split; [reflexivity|].
      by apply elem_of_map_to_list.
Qed.

Lemma items_sum_by_key (s : UsageStore) (mkey : string) (f : gmap string Z → Z)
    (g : UsageTotals → Z) (items : list (string * gmap string Z)) :
  (∀ d, g (entry_totals d) = f d) →
  (∀ it, it ∈ items → by_day s !! it.1 = Some it.2) →
  sum_Z ((λ it : string * gmap string Z, f it.2) <$>
           filter (λ it, String.prefix mkey it.1 = true) items) =
  sum_Z ((λ dkey, g (totals_of_day s dkey)) <$>
           filter (λ dkey, String.prefix mkey dkey = true) items.*1).
Proof.
  intros Hfg. induction items as [|[k v] l IH]; intros Hin; [reflexivity|].
  rewrite fmap_cons, !filter_cons.
  assert (IH' := IH (λ it H, Hin it (list_elem_of_further _ _ _ H))).
  change ((k, v).1) with k.
  destruct (decide (String.prefix mkey k = true)).
  - rewrite !fmap_cons, !sum_Z_cons, IH'. f_equal.
    assert (Hk : by_day s !! k = Some v) by (apply (Hin (k, v)); left).
    unfold totals_of_day. rewrite Hk. by rewrite Hfg.
  - exact IH'.
Qed.

Lemma month_items_days (s : UsageStore) (mkey : string) (f : gmap string Z → Z)
    (g : UsageTotals → Z) :
  (∀ d, g (entry_totals d) = f d) →
  sum_Z ((λ it : string * gmap string Z, f it.2) <$>
           filter (λ it, String.prefix mkey it.1 = true) (map_to_list (by_day s))) =
  sum_Z ((λ dkey, g (totals_of_day s dkey)) <$> days_of_month s mkey).
Proof.
  intros Hfg. rewrite (items_sum_by_key s mkey f g _ Hfg).
  - apply sum_Z_perm, fmap_Permutation, filter_Permutation, keys_perm.
  - intros [k v] H. by apply elem_of_map_to_list in H.
Qed.

Lemma get_month_totals (dt : option datetime) (s : UsageStore) :
  get_month clock dt s = (Ok (month_totals_spec s (month_key clock dt)), s).
Proof.
  unfold get_month, mbind, M_bind, get; simpl.
  rewrite month_step_foldl. unfold month_totals_spec, mret, M_ret.
  rewrite !Z.add_0_l.
  rewrite (month_items_days s _ (λ d, default 0%Z (d !! "down")) download_bytes)
    by reflexivity.
  rewrite (month_items_days s _ (λ d, default 0%Z (d !! "up")) upload_bytes)
    by reflexivity.
  reflexivity.
Qed.

(** C5.  For every ledger, [get_month(dt)] returns the componentwise sum of
    the down and up values of exactly the day-keys that start with the
    [YYYY-MM] key of [dt]: the sum of the totals [get_today] reports for
    each of these days.  The ledger itself is left as it was. *)
Theorem get_month_sums_days_of_month (dt : option datetime) (s : UsageStore) :
  get_month clock dt s = (Ok (month_totals_spec s (month_key clock dt)), s)
  ∧ (∀ dkey, dkey ∈ days_of_month s (month_key clock dt) ↔
       dkey ∈ dom (by_day s) ∧ String.prefix (month_key clock dt) dkey = true)
  ∧ (∀ dt', get_today clock dt' s = (Ok (totals_of_day s (today_key clock dt')), s)).
Proof.
  split; [|split].
  - apply get_month_totals.
  - intros dkey. unfold days_of_month.
    rewrite list_elem_of_filter, elem_of_elements. tauto.
  - intros dt'. apply get_today_totals.
Qed.

(** C10.  [get_today] and [get_month] leave the ledger as it is, also for a
    day or a month without recorded usage, for which they return zero
    totals; [clear_today] for a day without an entry leaves [by_day]
    unchanged and creates no entry. *)
Theorem queries_do_not_modify_ledger (s : UsageStore) :
  (∀ dt, (get_today clock dt s).2 = s)
  ∧ (∀ dt, (get_month clock dt s).2 = s)
  ∧ (∀ dt, by_day s !! today_key clock dt = None →
       get_today clock dt s = (Ok {| download_bytes := 0; upload_bytes := 0 |}, s))
  ∧ (∀ dt, days_of_month s (month_key clock dt) = [] →
       get_month clock dt s = (Ok {| download_bytes := 0; upload_bytes := 0 |}, s))
  ∧ (∀ dt, by_day s !! today_key clock dt = None →
       clear_today clock dt s = (Ok tt, s)).
Proof.
  repeat split.
  - intros dt. by rewrite get_today_totals.
  - intros dt.
    by rewrite get_month_totals.
  - intros dt H. rewrite get_today_totals. unfold totals_of_day. by rewrite H.
  - intros dt H. rewrite get_month_totals.
    unfold month_totals_spec. by rewrite H.
  - intros dt H. unfold clear_today, mbind, M_bind, get; simpl. by rewrite H.
Qed.

End LedgerProperties.

(** ** Usage repository *)

Lemma dict_traverse_fmap {A B} (f : A → option B) (g : B → A) (m : gmap string B) :
  (∀ x, f (g x) = Some x) → dict_traverse f (g <$> m) = Some m.
Proof.
  intros Hfg. unfold dict_traverse.
  rewrite decide_True.
  - f_equal. apply map_eq. intros k.
    rewrite lookup_omap, lookup_fmap.
    destruct (m !! k); simpl; [apply Hfg | reflexivity].
  - intros k v. rewrite lookup_fmap.
    destruct (m !! k); simpl; intros [= <-]. rewrite Hfg. eauto.
Qed.

Lemma as_by_day_value (m : gmap string (gmap string Z)) :
  as_by_day (by_day_value m) = Some m.
Proof.
  unfold as_by_day, by_day_value. apply dict_traverse_fmap.
  intros d. simpl. by apply dict_traverse_fmap.
Qed.

Lemma from_json_to_json (s : UsageStore) :
  from_json (to_json s) = Ok (Ledger s).
Proof.
  unfold from_json, to_json. rewrite lookup_singleton_eq.
  cbn [default from_option id]. rewrite as_by_day_value. by destruct s.
Qed.

Lemma save_returns (fault : disk_fault) (r : UsageRepository) (s : UsageStore)
    (fs fs' : gmap string file) :
  save fault r s fs = (Ok tt, fs') →
  fault = NoFault ∧ fs' !! path r = Some (Document (to_json s)).
Proof.
  destruct fault; cbv [save mbind M_bind modify raise]; try discriminate.
  rewrite lookup_insert_eq. intros [= <-]. split; [reflexivity|].
  apply lookup_insert_eq.
Qed.

Lemma load_document (r : UsageRepository) (fs : gmap string file) (v : json) :
  fs !! path r = Some (Document v) →
  load true r fs =
  (match from_json v with Ok obj => Ok obj | Raise _ => Ok (Ledger UsageStore_new) end,
   fs).
Proof.
  intros H. cbv [load mbind M_bind get]. rewrite H.
  cbv [try_except mret M_ret of_result json_load]. by destruct (from_json v).
Qed.

(** C6.  A [save(store)] that returns, followed by a [load()] on the same
    repository, gives back a store with the same [by_day] mapping, hence
    the same totals for every day-key. *)
Theorem save_load_roundtrip (fault : disk_fault) (r : UsageRepository)
    (s : UsageStore) (fs fs' : gmap string file) :
  save fault r s fs = (Ok tt, fs') →
  load true r fs' = (Ok (Ledger s), fs').
Proof.
  intros [_ Hfile]%save_returns.
  rewrite (load_document _ _ _ Hfile). by rewrite from_json_to_json.
Qed.

Lemma load_total (readable : bool) (r : UsageRepository) (fs : gmap string file) :
  ∃ obj, load readable r fs = (Ok obj, fs).
Proof.
  cbv [load mbind M_bind get]. destruct (fs !! path r) as [f|]; [|by eexists].
  cbv [try_except mret M_ret of_result raise json_load].
  destruct readable; [|by eexists].
  destruct f as [|v]; [by eexists|].
  destruct (from_json v); by eexists.
Qed.

(** C7 fails on the code.  [load()] falls back to the empty ledger only
    when opening or parsing the file raises.  A JSON object whose
    ["by_day"] member is not a dict of day entries with integer fields
    parses, and [from_json] hands the member to [UsageStore] without
    looking at it: [load()] returns a store whose [by_day] is that value,
    not the empty ledger. *)
Theorem load_keeps_malformed_by_day (r : UsageRepository) (fs : gmap string file)
    (m : gmap string json) (v : json) :
  fs !! path r = Some (Document (JDict m)) →
  m !! "by_day" = Some v →
  as_by_day v = None →
  load true r fs = (Ok (Unchecked v), fs)
  ∧ Unchecked v ≠ Ledger UsageStore_new.
Proof.
  intros Hfile Hm Hv. split; [|discriminate].
  rewrite (load_document _ _ _ Hfile). unfold from_json.
  rewrite Hm. cbn [default from_option id]. by rewrite Hv.
Qed.

(** The file [{"by_day": 5}] is loaded as a store whose [by_day] is [5]. *)
Lemma load_keeps_malformed_by_day_witness :
  load true repo_example disk_by_day_5 = (Ok (Unchecked (JInt 5)), disk_by_day_5)
  ∧ Unchecked (JInt 5) ≠ Ledger UsageStore_new.
Proof.
  apply (load_keeps_malformed_by_day repo_example disk_by_day_5
           {[ "by_day"%string := JInt 5 ]}); reflexivity.
Defined.

(** X23.  [load()] never raises and leaves the disk alone.  It returns the
    empty ledger when the file is missing, cannot be opened, is not JSON,
    or holds a JSON value that is not an object.  For a JSON object it
    returns the store [from_json] builds from the object's ["by_day"]
    member (the empty dict if it has none): a ledger when the member has
    the declared type, the member as it is otherwise. *)
Theorem load_never_raises (readable : bool) (r : UsageRepository)
    (fs : gmap string file) :
  (∃ obj, load readable r fs = (Ok obj, fs))
  ∧ (fs !! path r = None → load readable r fs = (Ok (Ledger UsageStore_new), fs))
  ∧ (readable = false → load readable r fs = (Ok (Ledger UsageStore_new), fs))
  ∧ (fs !! path r = Some NotJson →
       load readable r fs = (Ok (Ledger UsageStore_new), fs))
  ∧ (∀ v, fs !! path r = Some (Document v) → (∀ m, v ≠ JDict m) →
       load readable r fs = (Ok (Ledger UsageStore_new), fs))
  ∧ (∀ m, fs !! path r = Some (Document (JDict m)) → readable = true →
       load readable r fs =
       (Ok (let v := default (JDict ∅) (m !! "by_day") in
            match as_by_day v with
            | Some bd => Ledger {| by_day := bd |}
            | None => Unchecked v
            end), fs)).
Proof.
  split; [apply load_total|].
  cbv [load mbind M_bind get try_except mret M_ret of_result raise json_load].
  repeat split.
  - by intros ->.
  - intros ->. by destruct (fs !! path r).
  - intros ->. by destruct readable.
  - intros v -> Hv. destruct readable; [|done].
    destruct v; try done. by destruct (Hv m).
  - intros m -> ->. simpl. by destruct (as_by_day _).
Qed.

(** A truncated file is read as the empty ledger. *)
Lemma load_never_raises_witness :
  load true repo_example {[ "data.json"%string := NotJson ]}
  = (Ok (Ledger UsageStore_new), {[ "data.json"%string := NotJson ]}).
Proof.
  destruct (load_never_raises true repo_example {[ "data.json"%string := NotJson ]})
    as (_ & _ & _ & H & _).
  exact (H eq_refl).
Defined.

Lemma save_load_roundtrip_witness :
  let s := {| by_day := {[ "2024-03-07"%string :=
                           {[ "down"%string := 5%Z; "up"%string := 7%Z ]} ]} |} in
  ∃ fs', save NoFault repo_example s ∅ = (Ok tt, fs')
         ∧ load true repo_example fs' = (Ok (Ledger s), fs').
Proof.
  eexists. split; [reflexivity|].
  apply (save_load_roundtrip NoFault repo_example _ ∅). reflexivity.
Defined.

(** ** Interface selection *)

Lemma startswith_any_false (prefixes : list string) (name : string) :
  startswith_any prefixes name = false ↔
  ∀ p, p ∈ prefixes → String.prefix p name = false.
Proof.
  unfold startswith_any. induction prefixes as [|q qs IH]; simpl.
  - split; [|done]. intros _ p Hp. by apply elem_of_nil in Hp.
  - rewrite orb_false_iff, IH. split.
    + intros [Hq Hqs] p [->|Hp]%elem_of_cons; auto.
    + intros H. split; [apply H; left | intros p Hp; apply H; by right].
Qed.

Lemma elem_of_filter_ifaces (stats : gmap string snicstats)
    (all_counters : gmap string snetio) (name : string) :
  name ∈ filter_ifaces stats all_counters ↔ selectable stats all_counters name.
Proof.
  unfold filter_ifaces, selectable. revert name.
  apply (map_fold_weak_ind (λ r m, ∀ name, name ∈ r ↔
    ∃ st, m !! name = Some st ∧ isup st = true
          ∧ startswith_any exclude_prefixes name = false
          ∧ name ∈ dom all_counters)).
  - intros name. split; [set_solver|]. intros (st & H & _). by rewrite lookup_empty in H.
  - intros i x m r Hi IH name. unfold include_step.
    destruct (decide (name = i)) as [->|Hne].
    + assert (Hr : i ∉ r).
      { rewrite IH. intros (st & H & _). congruence. }
      rewrite lookup_insert_eq.
      destruct (isup x) eqn:Hup; cbn [negb].
      * destruct (startswith_any exclude_prefixes i) eqn:Hex.
        -- split; [by intros ?%Hr|]. intros (st & [= <-] & _ & ? & _). congruence.
        -- destruct (decide (i ∈ dom all_counters)).
           ++ split; [|intros _; apply elem_of_union_l, elem_of_singleton_2; done].
              intros _. by exists x.
           ++ split; [by intros ?%Hr|]. by intros (st & _ & _ & _ & ?).
      * split; [by intros ?%Hr|]. intros (st & [= <-] & ? & _). congruence.
    + rewrite lookup_insert_ne by done.
      destruct (negb (isup x)); [apply IH|].
      destruct (startswith_any exclude_prefixes i); [apply IH|].
      destruct (decide (i ∈ dom all_counters)); [|apply IH].
      rewrite elem_of_union, elem_of_singleton, IH. tauto.
Qed.

Lemma refresh_included (m : NetMonitor) (stats : gmap string snicstats)
    (all_counters : gmap string snetio) :
  ∃ m', _refresh_ifaces (Ok stats) (Ok all_counters) m = (Ok tt, m')
        ∧ _included_ifaces m' = select_ifaces (config m) stats all_counters
        ∧ config m' = config m.
Proof.
  cbv [_refresh_ifaces]. unfold_M.
  eexists. split; [reflexivity|]. split; reflexivity.
Qed.

(** C8, as the code has it.  The filtered set holds an interface if and
    only if it reports up, its name starts with none of the excluded
    prefixes, and the OS has I/O counters for it.  With a non-empty pinned
    name that is in the filtered set the selection is exactly that one
    interface; with a pinned name that is not in it, or with none, the
    selection is the whole filtered set.  [_refresh_ifaces] stores this
    selection. *)
Theorem select_ifaces_spec (m : NetMonitor) (stats : gmap string snicstats)
    (all_counters : gmap string snetio) :
  let filtered := filter_ifaces stats all_counters in
  let selected := select_ifaces (config m) stats all_counters in
  (∀ name, name ∈ filtered ↔
     ∃ st, stats !! name = Some st ∧ isup st = true
           ∧ (∀ p, p ∈ exclude_prefixes → String.prefix p name = false)
           ∧ name ∈ dom all_counters)
  ∧ (∀ n, nic_name (config m) = Some n → n ≠ ""%string → n ∈ filtered →
       selected = {[ n ]})
  ∧ (∀ n, nic_name (config m) = Some n → n ∉ filtered → selected = filtered)
  ∧ (nic_name (config m) = None → selected = filtered)
  ∧ (∃ m', _refresh_ifaces (Ok stats) (Ok all_counters) m = (Ok tt, m')
           ∧ _included_ifaces m' = selected).
Proof.
  cbv zeta. unfold select_ifaces, restrict_to_nic. repeat split.
  - intros (st & ? & ? & Hex & ?)%elem_of_filter_ifaces.
    exists st. repeat split; try done. by apply startswith_any_false.
  - intros (st & ? & ? & Hex & ?).
    apply elem_of_filter_ifaces. exists st. repeat split; try done.
    by apply startswith_any_false.
  - intros n -> Hn Hin. by rewrite decide_True.
  - intros n -> Hin. rewrite decide_False; [done | tauto].
  - by intros ->.
  - destruct (refresh_included m stats all_counters) as (m' & ? & ? & _). eauto.
Qed.

Lemma select_ifaces_spec_witness :
  select_ifaces (config_pinned "Ethernet") stats_example counters_example
  = {[ "Ethernet"%string ]}.
Proof.
  pose (m := NetMonitor_init repo_example true POLL_INTERVAL_SEC
               (config_pinned "Ethernet") UsageStore_new).
  destruct (select_ifaces_spec m stats_example counters_example)
    as (_ & H & _).
  apply (H "Ethernet"%string); [reflexivity | discriminate | by vm_compute].
Defined.

(** C8 as stated fails: an interface that is up and has no excluded prefix
    is still left out when the OS reports no I/O counters for it. *)
Lemma up_unexcluded_iface_not_selected :
  ({[ "Ethernet"%string := nic_up ]} : gmap string snicstats) !! "Ethernet"%string
    = Some nic_up
  ∧ isup nic_up = true
  ∧ startswith_any exclude_prefixes "Ethernet" = false
  ∧ select_ifaces config_auto {[ "Ethernet"%string := nic_up ]} ∅ = ∅.
Proof. repeat split. Qed.

(** The three interfaces of the specification's example select
    [{"Ethernet"}]; pinning an absent name changes nothing. *)
Example select_ifaces_example :
  select_ifaces config_auto stats_example counters_example = {[ "Ethernet"%string ]}
  ∧ select_ifaces (config_pinned "Wi-Fi") stats_example counters_example
    = {[ "Ethernet"%string ]}.
Proof. split; by vm_compute. Qed.

(** ** Counter differencing *)

Lemma iface_delta_nonneg (last : gmap string (Z * Z)) (pernic : gmap string snetio)
    (name : string) :
  (0 ≤ (iface_delta last pernic name).1)%Z ∧ (0 ≤ (iface_delta last pernic name).2)%Z.
Proof. unfold iface_delta. destruct (pernic !! name); simpl; lia. Qed.

Lemma sum_Z_nonneg (l : list Z) : Forall (λ x, 0 ≤ x)%Z l → (0 ≤ sum_Z l)%Z.
Proof. induction 1; simpl; lia. Qed.

Lemma iface_delta_insert_ne (last : gmap string (Z * Z)) (pernic : gmap string snetio)
    (name other : string) (v : Z * Z) :
  name ≠ other →
  iface_delta (<[other := v]> last) pernic name = iface_delta last pernic name.
Proof. intros H. unfold iface_delta. by rewrite lookup_insert_ne. Qed.

(** The loop over the interfaces, started from any accumulator: every
    interface is differenced against the baseline held before the loop. *)
Lemma sample_foldl (pernic : gmap string snetio) (names : list string) :
  NoDup names →
  ∀ (last : gmap string (Z * Z)) (d u : Z),
    let r := foldl (sample_step pernic) (last, d, u) names in
    r.1.2 = (d + sum_Z ((λ n, (iface_delta last pernic n).1) <$> names))%Z
    ∧ r.2 = (u + sum_Z ((λ n, (iface_delta last pernic n).2) <$> names))%Z
    ∧ ∀ n, r.1.1 !! n =
           match pernic !! n with
           | Some c => if decide (n ∈ names) then Some (bytes_recv c, bytes_sent c)
                       else last !! n
           | None => last !! n
           end.
Proof.
  induction 1 as [|x names Hx Hnd IH]; intros last d u; cbv zeta.
  - cbn. repeat split; try lia. intros n. destruct (pernic !! n); [|done].
    rewrite decide_False; [done | apply not_elem_of_nil].
  - change (foldl (sample_step pernic) (last, d, u) (x :: names))
      with (foldl (sample_step pernic) (sample_step pernic (last, d, u) x) names).
    rewrite !fmap_cons, !sum_Z_cons.
    destruct (pernic !! x) as [c|] eqn:Hc.
    + assert (Hstep : sample_step pernic (last, d, u) x =
                (<[x := (bytes_recv c, bytes_sent c)]> last,
                 (d + (iface_delta last pernic x).1)%Z,
                 (u + (iface_delta last pernic x).2)%Z)).
      { unfold sample_step, iface_delta. by rewrite Hc. }
      rewrite Hstep.
      destruct (IH (<[x := (bytes_recv c, bytes_sent c)]> last)
                   (d + (iface_delta last pernic x).1)%Z
                   (u + (iface_delta last pernic x).2)%Z) as (Hd & Hu & Hl).
      cbv zeta in Hd, Hu, Hl. rewrite Hd, Hu.
      assert (E1 : (λ n, (iface_delta (<[x := (bytes_recv c, bytes_sent c)]> last) pernic n).1)
                     <$> names
                   = (λ n, (iface_delta last pernic n).1) <$> names).
      { apply list_fmap_ext. intros i n Hn. f_equal.
        apply iface_delta_insert_ne. intros ->.
        apply Hx. by eapply list_elem_of_lookup_2. }
      assert (E2 : (λ n, (iface_delta (<[x := (bytes_recv c, bytes_sent c)]> last) pernic n).2)
                     <$> names
                   = (λ n, (iface_delta last pernic n).2) <$> names).
      { apply list_fmap_ext. intros i n Hn. f_equal.
        apply iface_delta_insert_ne. intros ->.
        apply Hx. by eapply list_elem_of_lookup_2. }
      rewrite E1, E2.
      split; [symmetry; apply Z.add_assoc|].
      split; [symmetry; apply Z.add_assoc|].
      intros n. rewrite Hl. destruct (pernic !! n) as [c'|] eqn:Hn.
      * destruct (decide (n = x)) as [->|Hne].
        -- rewrite (decide_True (P := x ∈ x :: names)) by left.
           rewrite lookup_insert_eq. replace c' with c by congruence.
           by destruct (decide (x ∈ names)).
        -- rewrite lookup_insert_ne by done.
           destruct (decide (n ∈ names)).
           ++ rewrite decide_True; [done | by right].
           ++ rewrite decide_False; [done|]. by intros [?|?]%elem_of_cons.
      * destruct (decide (n = x)) as [->|Hne]; [congruence|].
        by rewrite lookup_insert_ne.
    + assert (Hstep : sample_step pernic (last, d, u) x = (last, d, u)).
      { unfold sample_step. by rewrite Hc. }
      rewrite Hstep.
      destruct (IH last d u) as (Hd & Hu & Hl).
      cbv zeta in Hd, Hu, Hl. rewrite Hd, Hu.
      assert (H0 : iface_delta last pernic x = (0%Z, 0%Z)).
      { unfold iface_delta. by rewrite Hc. }
      rewrite H0. cbn [fst snd]. rewrite !Z.add_0_l.
      repeat split.
      intros n. rewrite Hl. destruct (pernic !! n) as [c'|] eqn:Hn; [|done].
      destruct (decide (n ∈ names)).
      * rewrite decide_True; [done | by right].
      * rewrite decide_False; [done|].
        intros [->|?]%elem_of_cons; [congruence | done].
Qed.

Lemma sample_ifaces_sums (pernic : gmap string snetio) (included : gset string)
    (last : gmap string (Z * Z)) :
  let r := sample_ifaces pernic included last in
  r.1.2 = sum_Z ((λ n, (iface_delta last pernic n).1) <$> elements included)
  ∧ r.2 = sum_Z ((λ n, (iface_delta last pernic n).2) <$> elements included)
  ∧ ∀ n, r.1.1 !! n =
         match pernic !! n with
         | Some c => if decide (n ∈ included) then Some (bytes_recv c, bytes_sent c)
                     else last !! n
         | None => last !! n
         end.
Proof.
  destruct (sample_foldl pernic (elements included) (NoDup_elements _) last 0 0)
    as (Hd & Hu & Hl).
  cbv zeta in *. unfold sample_ifaces. rewrite Hd, Hu. repeat split; try lia.
  intros n. rewrite Hl. destruct (pernic !! n); [|done].
  destruct (decide (n ∈ included)).
  - rewrite decide_True; [done | by apply elem_of_elements].
  - rewrite decide_False; [done | by rewrite elem_of_elements].
Qed.

Lemma sample_ifaces_nonneg (pernic : gmap string snetio) (included : gset string)
    (last : gmap string (Z * Z)) :
  (0 ≤ (sample_ifaces pernic included last).1.2)%Z
  ∧ (0 ≤ (sample_ifaces pernic included last).2)%Z.
Proof.
  destruct (sample_ifaces_sums pernic included last) as (Hd & Hu & _).
  cbv zeta in *. rewrite Hd, Hu.
  split; apply sum_Z_nonneg, Forall_fmap, Forall_forall; intros n _;
    apply iface_delta_nonneg.
Qed.

Lemma measure_inv (e : TickEnv) (w w' : World) (deltas : Z * Z) (raw : Q * Q) :
  measure e w = (Ok (deltas, raw), w') →
  ∃ w1 pernic,
    refresh_if_due e (set_last_time (os_time e) w) = (Ok tt, w1)
    ∧ os_io_counters e = Ok pernic
    ∧ let r := sample_ifaces pernic (_included_ifaces (self w1))
                 (_last_pernic (self w1)) in
      let elapsed := Qmax (1 # 1000000) (os_time e - last_time w) in
      deltas = (r.1.2, r.2)
      ∧ raw = (raw_bps r.1.2 elapsed, raw_bps r.2 elapsed)
      ∧ w' = set_self (set_last_pernic r.1.1 (self w1)) w1.
Proof.
  unfold measure. unfold_M.
  destruct (refresh_if_due e (set_last_time (os_time e) w)) as [[[]|ex] w1];
    [|discriminate].
  destruct (os_io_counters e) as [pernic|ex]; [|discriminate].
  intros [= <- <- <-]. exists w1, pernic. repeat split.
Qed.

Lemma raw_bps_nonneg (delta : Z) (elapsed : Q) : 0 <= raw_bps delta elapsed.
Proof. apply Q.le_max_l. Qed.

(** C1.  In a tick whose measurement returns, let [w0] be the world once
    the clock is read and the interface refresh, if due, is done, and
    [pernic] the counters read.  Every tracked interface that the read
    lists contributes, per direction, [max(0, current - previous)], where
    [previous] is its baseline; an interface without a baseline or missing
    from the read contributes nothing.  No contribution is negative, also
    when the reading decreased.  The tick's [down_delta] and [up_delta] are
    the sums of these clamped deltas over the tracked interfaces.  The
    baseline the tick leaves is the current reading, so the next tick
    differences against it. *)
Theorem deltas_clamped_and_summed (e : TickEnv) (w w' : World)
    (deltas : Z * Z) (raw : Q * Q) :
  measure e w = (Ok (deltas, raw), w') →
  ∃ w0 pernic,
    refresh_if_due e (set_last_time (os_time e) w) = (Ok tt, w0)
    ∧ os_io_counters e = Ok pernic
    ∧ let last := _last_pernic (self w0) in
      let included := _included_ifaces (self w0) in
      deltas.1 = sum_Z ((λ n, (iface_delta last pernic n).1) <$> elements included)
      ∧ deltas.2 = sum_Z ((λ n, (iface_delta last pernic n).2) <$> elements included)
      ∧ (∀ name c previous, pernic !! name = Some c → last !! name = Some previous →
           iface_delta last pernic name =
           (Z.max 0 (bytes_recv c - previous.1), Z.max 0 (bytes_sent c - previous.2)))
      ∧ (∀ name, pernic !! name = None ∨ last !! name = None →
           iface_delta last pernic name = (0%Z, 0%Z))
      ∧ (∀ name, (0 ≤ (iface_delta last pernic name).1)%Z
                 ∧ (0 ≤ (iface_delta last pernic name).2)%Z)
      ∧ (0 ≤ deltas.1)%Z ∧ (0 ≤ deltas.2)%Z ∧ 0 <= raw.1 ∧ 0 <= raw.2
      ∧ _included_ifaces (self w') = included
      ∧ (∀ name c, name ∈ included → pernic !! name = Some c →
           _last_pernic (self w') !! name = Some (bytes_recv c, bytes_sent c))
      ∧ (∀ pernic' name c c', name ∈ included →
           pernic !! name = Some c → pernic' !! name = Some c' →
           iface_delta (_last_pernic (self w')) pernic' name =
           (Z.max 0 (bytes_recv c' - bytes_recv c),
            Z.max 0 (bytes_sent c' - bytes_sent c))).
Proof.
  intros (w0 & pernic & Href & Hread & H)%measure_inv. cbv zeta in H.
  destruct H as (-> & -> & ->).
  exists w0, pernic. split; [exact Href|]. split; [exact Hread|]. cbv zeta.
  destruct (sample_ifaces_sums pernic (_included_ifaces (self w0))
              (_last_pernic (self w0))) as (Hd & Hu & Hl).
  cbv zeta in Hd, Hu, Hl.
  assert (Hnew : ∀ name c, name ∈ _included_ifaces (self w0) →
            pernic !! name = Some c →
            (sample_ifaces pernic (_included_ifaces (self w0))
               (_last_pernic (self w0))).1.1 !! name
            = Some (bytes_recv c, bytes_sent c)).
  { intros name c Hin Hc. rewrite Hl, Hc. by rewrite decide_True. }
  cbn [fst snd self set_self].
  split; [exact Hd|]. split; [exact Hu|]. split.
  { intros name c previous Hc Hp. unfold iface_delta. by rewrite Hc, Hp. }
  split.
  { intros name [Hc|Hp]; unfold iface_delta; [by rewrite Hc|].
    destruct (pernic !! name) as [c|]; [|done]. rewrite Hp. cbn.
    by rewrite !Z.sub_diag. }
  split; [apply iface_delta_nonneg|].
  split; [apply sample_ifaces_nonneg|]. split; [apply sample_ifaces_nonneg|].
  split; [apply raw_bps_nonneg|]. split; [apply raw_bps_nonneg|].
  split; [reflexivity|].
  split; [exact Hnew|].
  intros pernic' name c c' Hin Hc Hc'. unfold iface_delta.
  cbn [_last_pernic set_last_pernic]. by rewrite Hc', (Hnew name c Hin Hc).
Qed.

(** The tick at 10.25 s reads 150 received and 80 sent bytes for
    [Ethernet], whose baseline is (200, 60): the receive counter went
    down.  The tick's deltas are 0 down and 20 up, and the baseline becomes
    the reading. *)
Lemma deltas_clamped_and_summed_witness :
  let e := tick_env (41 # 4) 150 80 NoFault in
  _last_pernic (self world_running) !! "Ethernet"%string = Some (200%Z, 60%Z)
  ∧ (∃ raw, (measure e world_running).1 = Ok ((0%Z, 20%Z), raw))
  ∧ _last_pernic (self (measure e world_running).2) !! "Ethernet"%string
    = Some (150%Z, 80%Z).
Proof.
  intros e. split; [by vm_compute|].
  pose (elapsed := Qmax (1 # 1000000) ((41 # 4) - (19 # 2))).
  assert (Hm : measure e world_running
               = (Ok ((0%Z, 20%Z), (raw_bps 0 elapsed, raw_bps 20 elapsed)),
                  (measure e world_running).2)) by (by vm_compute).
  split; [eexists; by rewrite Hm|].
  destruct (deltas_clamped_and_summed _ _ _ _ _ Hm)
    as (w0 & pernic & Href & [= <-] & _ & _ & _ & _ & _ & _ & _ & _ & _ & <- & Hbase & _).
  apply (Hbase "Ethernet"%string (io 150 80)); [|reflexivity].
  refine (bool_decide_unpack _ _). by vm_compute.
Defined.

(** ** Rolling 10 s average *)

Lemma Qminus_10_le (x : Q) : x - 10 <= x.
Proof.
  assert (H : x - 10 <= x + 0) by (unfold Qminus; by apply Qplus_le_r).
  by rewrite Qplus_0_r in H.
Qed.









(** ** Frame rules of the monad *)

Section Frame.

Context {S V : Type} (view : S → V).

Lemma preserves_ret {A} (a : A) : preserves view (mret a : M S A).
Proof. by intros s r s' [= _ <-]. Qed.

Lemma preserves_raise {A} (e : exn) : preserves view (raise e : M S A).
Proof. by intros s r s' [= _ <-]. Qed.

Lemma preserves_of_result {A} (x : result A) : preserves view (of_result x : M S A).
Proof. by intros s r s' [= _ <-]. Qed.

Lemma preserves_get : preserves view (get : M S S).
Proof. by intros s r s' [= _ <-]. Qed.

Lemma preserves_modify (f : S → S) :
  (∀ s, view (f s) = view s) → preserves view (modify f).
Proof. intros Hf s r s' [= _ <-]. apply Hf. Qed.

Lemma preserves_bind {A B} (c : M S A) (k : A → M S B) :
  preserves view c → (∀ a, preserves view (k a)) → preserves view (c ≫= k).
Proof.
  intros Hc Hk s r s'. unfold mbind, M_bind.
  destruct (c s) as [[a|e] s1] eqn:Hcs.
  - intros Hks. rewrite (Hk a _ _ _ Hks). by eapply Hc.
  - intros [= _ <-]. by eapply Hc.
Qed.

Lemma preserves_try_except {A} (c h : M S A) :
  preserves view c → preserves view h → preserves view (try_except c h).
Proof.
  intros Hc Hh s r s'. unfold try_except.
  destruct (c s) as [[a|e] s1] eqn:Hcs.
  - intros [= _ <-]. by eapply Hc.
  - intros Hhs. rewrite (Hh _ _ _ Hhs). by eapply Hc.
Qed.

Lemma preserves_zoom {T A} (proj : S → T) (upd : T → S → S) (c : M T A) :
  (∀ t s, view (upd t s) = view s) → preserves view (zoom proj upd c).
Proof.
  intros Hupd s r s'. unfold zoom. destruct (c (proj s)) as [r1 t].
  intros [= _ <-]. apply Hupd.
Qed.

End Frame.

(** A computation on [self] that preserves a view of the monitor preserves
    it as a view of the world. *)
Lemma preserves_on_self {A V} (view : NetMonitor → V) (c : M NetMonitor A) :
  preserves view c → preserves (λ w, view (self w)) (on_self c).
Proof.
  intros Hc w r w'. unfold on_self, zoom.
  destruct (c (self w)) as [r1 m1] eqn:Hcm. intros [= _ <-]. cbn.
  by eapply Hc.
Qed.

Lemma refresh_preserves_smoothing stats_read counters_read :
  preserves smoothing_view (_refresh_ifaces stats_read counters_read).
Proof.
  unfold _refresh_ifaces.
  apply preserves_bind; [apply preserves_of_result | intros stats].
  apply preserves_bind; [apply preserves_of_result | intros all_counters].
  apply preserves_bind; [apply preserves_get | intros m].
  apply preserves_bind; [by apply preserves_modify | intros _].
  by apply preserves_modify.
Qed.

Lemma refresh_if_due_preserves_smoothing (e : TickEnv) :
  preserves (λ w, smoothing_view (self w)) (refresh_if_due e).
Proof.
  unfold refresh_if_due.
  apply preserves_bind; [apply preserves_get | intros w].
  destruct (Qlt_le_dec _ _); [|apply preserves_ret].
  apply preserves_bind; [|intros _].
  - apply (preserves_on_self smoothing_view), refresh_preserves_smoothing.
  - apply (preserves_on_self smoothing_view). by apply preserves_modify.
Qed.

Lemma measure_preserves_smoothing (e : TickEnv) :
  preserves (λ w, smoothing_view (self w)) (measure e).
Proof.
  unfold measure.
  apply preserves_bind; [apply preserves_get | intros w].
  apply preserves_bind; [by apply preserves_modify | intros _].
  apply preserves_bind; [apply refresh_if_due_preserves_smoothing | intros _].
  apply preserves_bind; [apply preserves_of_result | intros pernic].
  apply preserves_bind; [apply preserves_get | intros w1].
  apply preserves_bind; [|intros _; apply preserves_ret].
  apply (preserves_on_self smoothing_view). by apply preserves_modify.
Qed.

Lemma save_store_preserves_self (fault : disk_fault) :
  preserves self (save_store fault).
Proof.
  unfold save_store.
  apply preserves_bind; [apply preserves_get | intros w].
  by apply preserves_zoom.
Qed.

Lemma preserves_weaken {S A V U} (view : S → V) (f : V → U) (c : M S A) :
  preserves view c → preserves (λ s, f (view s)) c.
Proof. intros Hc s r s' H. by rewrite (Hc _ _ _ H). Qed.

(** The part of [publish] that follows the smoothing step. *)
Lemma publish_preserves_smoothing_after (e : TickEnv) (deltas : Z * Z) (raw : Q * Q) :
  preserves (λ w, smoothing_view (self w))
    (on_self (roll (os_time e) raw.1 raw.2);;
     on_self (zoom store set_store
                (add_usage (os_today e) (os_today e) deltas.1 deltas.2));;
     (if decide (py_int (os_time e) `mod` 10 = 0)%Z then save_store (os_disk e)
      else mret tt);;
     w ← get;
     if on_update (self w) then
       try_except (if callback_raises e then raise TypeError else mret tt) (mret tt)
     else mret tt).
Proof.
  apply preserves_bind; [|intros _].
  { apply (preserves_on_self smoothing_view). unfold roll.
    apply preserves_bind; [apply preserves_get | intros m].
    apply preserves_bind; [by apply preserves_modify | intros _].
    by apply preserves_modify. }
  apply preserves_bind; [|intros _].
  { apply (preserves_on_self smoothing_view). by apply preserves_zoom. }
  apply preserves_bind; [|intros _].
  { destruct (decide _); [|apply preserves_ret].
    apply (preserves_weaken self smoothing_view), save_store_preserves_self. }
  apply preserves_bind; [apply preserves_get | intros w].
  destruct (on_update (self w)); [|apply preserves_ret].
  apply preserves_try_except; [|apply preserves_ret].
  destruct (callback_raises e); [apply preserves_raise | apply preserves_ret].
Qed.

(** ** Smoothing *)

Lemma bind_ok {S A B} (c : M S A) (k : A → M S B) (s s1 : S) (a : A) :
  c s = (Ok a, s1) → (c ≫= k) s = k a s1.
Proof. intros H. unfold mbind, M_bind. by rewrite H. Qed.

Lemma bind_raise {S A B} (c : M S A) (k : A → M S B) (s s1 : S) (e : exn) :
  c s = (Raise e, s1) → (c ≫= k) s = (Raise e, s1).
Proof. intros H. unfold mbind, M_bind. by rewrite H. Qed.

Lemma on_self_run {A} (c : M NetMonitor A) (w : World) (r : result A) (m1 : NetMonitor) :
  c (self w) = (r, m1) → on_self c w = (r, set_self m1 w).
Proof. intros H. unfold on_self, zoom. by rewrite H. Qed.

Lemma smooth_bypass (raw_down raw_up : Q) (m : NetMonitor) :
  smoothing_seconds (config m) <= 0 →
  smooth raw_down raw_up m = (Ok tt, set_current_bps raw_down raw_up m).
Proof.
  intros Hs. unfold smooth. unfold_M.
  destruct (Qlt_le_dec 0 (Qmax 0 (smoothing_seconds (config m)))) as [Hlt|_];
    [|reflexivity].
  exfalso. rewrite (Q.max_l _ _ Hs) in Hlt. by apply Qlt_irrefl in Hlt.
Qed.

Lemma smooth_seed (raw_down raw_up : Q) (m : NetMonitor) :
  0 < smoothing_seconds (config m) →
  _ema_down_bps m = None →
  smooth raw_down raw_up m =
  (Ok tt, set_current_bps raw_down raw_up
            (set_ema_bps (Some raw_down) (Some raw_up) m)).
Proof.
  intros Hs Hema. unfold smooth. unfold_M.
  destruct (Qlt_le_dec 0 (Qmax 0 (smoothing_seconds (config m)))) as [_|Hle].
  - by rewrite Hema.
  - exfalso. apply (Qlt_irrefl 0).
    eapply Qlt_le_trans; [exact Hs|].
    eapply Qle_trans; [apply Q.le_max_r | exact Hle].
Qed.

Lemma smooth_resume (raw_down raw_up x y : Q) (m : NetMonitor) :
  0 < smoothing_seconds (config m) →
  _ema_down_bps m = Some x →
  _ema_up_bps m = Some y →
  smooth raw_down raw_up m =
  (Ok tt,
   set_current_bps
     (Qmin 1 (Qmax (1 # 100) (interval m / Qmax 0 (smoothing_seconds (config m))))
        * raw_down
      + (1 - Qmin 1 (Qmax (1 # 100)
                       (interval m / Qmax 0 (smoothing_seconds (config m))))) * x)
     (Qmin 1 (Qmax (1 # 100) (interval m / Qmax 0 (smoothing_seconds (config m))))
        * raw_up
      + (1 - Qmin 1 (Qmax (1 # 100)
                       (interval m / Qmax 0 (smoothing_seconds (config m))))) * y)
     (set_ema_bps
        (Some (Qmin 1 (Qmax (1 # 100)
                         (interval m / Qmax 0 (smoothing_seconds (config m))))
                 * raw_down
               + (1 - Qmin 1 (Qmax (1 # 100)
                                (interval m / Qmax 0 (smoothing_seconds (config m)))))
                 * x))
        (Some (Qmin 1 (Qmax (1 # 100)
                         (interval m / Qmax 0 (smoothing_seconds (config m))))
                 * raw_up
               + (1 - Qmin 1 (Qmax (1 # 100)
                                (interval m / Qmax 0 (smoothing_seconds (config m)))))
                 * y))
        m)).
Proof.
  intros Hs Hx Hy. unfold smooth. unfold_M.
  destruct (Qlt_le_dec 0 (Qmax 0 (smoothing_seconds (config m)))) as [_|Hle].
  - by rewrite Hx, Hy.
  - exfalso. apply (Qlt_irrefl 0).
    eapply Qlt_le_trans; [exact Hs|].
    eapply Qle_trans; [apply Q.le_max_r | exact Hle].
Qed.

Lemma publish_after_smooth (e : TickEnv) (deltas : Z * Z) (raw : Q * Q)
    (w w' : World) (r : result unit) (m1 : NetMonitor) :
  smooth raw.1 raw.2 (self w) = (Ok tt, m1) →
  publish e deltas raw w = (r, w') →
  smoothing_view (self w') = smoothing_view m1.
Proof.
  intros Hsm. unfold publish. cbv zeta.
  rewrite (bind_ok _ _ _ _ _ (on_self_run _ _ _ _ Hsm)).
  intros H. by apply publish_preserves_smoothing_after in H.
Qed.

Lemma tick_after_measure (e : TickEnv) (w w1 : World) (deltas : Z * Z) (raw : Q * Q) :
  measure e w = (Ok (deltas, raw), w1) →
  tick e w = publish e deltas raw w1.
Proof. intros H. unfold tick. by rewrite (bind_ok _ _ _ _ _ H). Qed.

Lemma smoothing_view_inj (m m' : NetMonitor) :
  smoothing_view m' = smoothing_view m →
  current_down_bps m' = current_down_bps m
  ∧ current_up_bps m' = current_up_bps m
  ∧ _ema_down_bps m' = _ema_down_bps m
  ∧ _ema_up_bps m' = _ema_up_bps m
  ∧ config m' = config m.
Proof. unfold smoothing_view. by intros [= -> -> -> -> ->]. Qed.

(** A tick whose measurement returned, with smoothing disabled. *)
Lemma tick_bypass (e : TickEnv) (w w1 w' : World) (deltas : Z * Z) (raw : Q * Q)
    (r : result unit) :
  smoothing_seconds (config (self w)) <= 0 →
  measure e w = (Ok (deltas, raw), w1) →
  tick e w = (r, w') →
  smoothing_view (self w') =
  (raw.1, raw.2, _ema_down_bps (self w), _ema_up_bps (self w), config (self w)).
Proof.
  intros Hs Hm. rewrite (tick_after_measure _ _ _ _ _ Hm). intros Hp.
  destruct (smoothing_view_inj _ _ (measure_preserves_smoothing e _ _ _ Hm))
    as (_ & _ & Hed & Heu & Hc).
  rewrite <- Hc in Hs.
  rewrite (publish_after_smooth _ _ _ _ _ _ _ (smooth_bypass raw.1 raw.2 _ Hs) Hp).
  unfold smoothing_view. cbn. by rewrite Hed, Heu, Hc.
Qed.

(** A tick whose measurement returned, with smoothing enabled and no EMA
    state. *)
Lemma tick_seed (e : TickEnv) (w w1 w' : World) (deltas : Z * Z) (raw : Q * Q)
    (r : result unit) :
  0 < smoothing_seconds (config (self w)) →
  _ema_down_bps (self w) = None →
  measure e w = (Ok (deltas, raw), w1) →
  tick e w = (r, w') →
  smoothing_view (self w') =
  (raw.1, raw.2, Some raw.1, Some raw.2, config (self w)).
Proof.
  intros Hs Hema Hm. rewrite (tick_after_measure _ _ _ _ _ Hm). intros Hp.
  destruct (smoothing_view_inj _ _ (measure_preserves_smoothing e _ _ _ Hm))
    as (_ & _ & Hed & Heu & Hc).
  rewrite <- Hc in Hs. rewrite <- Hed in Hema.
  rewrite (publish_after_smooth _ _ _ _ _ _ _ (smooth_seed raw.1 raw.2 _ Hs Hema) Hp).
  unfold smoothing_view. cbn. by rewrite Hc.
Qed.

(** Any tick, with smoothing disabled: the EMA state and the configuration
    stay as they are. *)
Lemma tick_disabled_keeps_ema (e : TickEnv) (w w' : World) (r : result unit) :
  smoothing_seconds (config (self w)) <= 0 →
  tick e w = (r, w') →
  _ema_down_bps (self w') = _ema_down_bps (self w)
  ∧ _ema_up_bps (self w') = _ema_up_bps (self w)
  ∧ config (self w') = config (self w).
Proof.
  intros Hs. destruct (measure e w) as [[[deltas raw]|ex] w1] eqn:Hm.
  - intros Ht. pose proof (tick_bypass _ _ _ _ _ _ _ Hs Hm Ht) as Hv.
    unfold smoothing_view in Hv. by injection Hv as _ _ -> -> ->.
  - unfold tick. rewrite (bind_raise _ _ _ _ _ Hm). intros [= _ <-].
    destruct (smoothing_view_inj _ _ (measure_preserves_smoothing e _ _ _ Hm))
      as (_ & _ & Hed & Heu & Hc).
    by rewrite Hed, Heu, Hc.
Qed.

Lemma tick_keeps_config (e : TickEnv) :
  preserves (λ w, config (self w)) (tick e).
Proof.
  intros w r w'. destruct (measure e w) as [[[deltas raw]|ex] w1] eqn:Hm.
  - rewrite (tick_after_measure _ _ _ _ _ Hm).
    destruct (smoothing_view_inj _ _ (measure_preserves_smoothing e _ _ _ Hm))
      as (_ & _ & _ & _ & Hc).
    unfold publish. cbv zeta. intros Hp.
    assert (Hsm : preserves config (smooth raw.1 raw.2)).
    { unfold smooth.
      apply preserves_bind; [apply preserves_get | intros m].
      destruct (Qlt_le_dec _ _); [|by apply preserves_modify].
      apply preserves_bind; [|intros _].
      - destruct (_ema_down_bps m); [|by apply preserves_modify].
        destruct (_ema_up_bps m); [by apply preserves_modify|].
        apply preserves_bind; [by apply preserves_modify | intros _].
        apply preserves_raise.
      - apply preserves_bind; [apply preserves_get | intros m'].
        by apply preserves_modify. }
    revert Hp. destruct (smooth raw.1 raw.2 (self w1)) as [[[]|ex] m1] eqn:Hs.
    + rewrite (bind_ok _ _ _ _ _ (on_self_run _ _ _ _ Hs)). intros Hp.
      apply publish_preserves_smoothing_after in Hp.
      apply smoothing_view_inj in Hp as (_ & _ & _ & _ & Hc').
      cbn in Hc'. rewrite Hc'. rewrite (Hsm _ _ _ Hs). exact Hc.
    + rewrite (bind_raise _ _ _ _ _ (on_self_run _ _ _ _ Hs)). intros [= _ <-].
      cbn. rewrite (Hsm _ _ _ Hs). exact Hc.
  - unfold tick. rewrite (bind_raise _ _ _ _ _ Hm). intros [= _ <-].
    by destruct (smoothing_view_inj _ _ (measure_preserves_smoothing e _ _ _ Hm))
      as (_ & _ & _ & _ & Hc).
Qed.

(** ** Failures inside the loop *)

Lemma save_fault_raises (fault : disk_fault) (r : UsageRepository) (s : UsageStore)
    (fs : gmap string file) :
  fault ≠ NoFault → ∃ fs', save fault r s fs = (Raise OSError, fs').
Proof. destruct fault; [done| | |]; intros _; by eexists. Qed.

Lemma save_store_fault_raises (fault : disk_fault) (w : World) :
  fault ≠ NoFault → ∃ w', save_store fault w = (Raise OSError, w').
Proof.
  intros Hf. unfold save_store. unfold_M.
  destruct (save_fault_raises fault (repo (self w)) (store (self w)) (disk w) Hf)
    as [fs' ->]. by eexists.
Qed.

(** A tick whose periodic save meets a disk fault never returns: the
    exception of [self.repo.save] is not caught inside the loop. *)
Lemma tick_save_fault_raises (e : TickEnv) (w w' : World) (r : result unit) :
  (py_int (os_time e) `mod` 10 = 0)%Z →
  os_disk e ≠ NoFault →
  tick e w = (r, w') → ∃ ex, r = Raise ex.
Proof.
  intros Hdue Hf.
  destruct (measure e w) as [[[deltas raw]|ex] w1] eqn:Hm.
  2:{ unfold tick. rewrite (bind_raise _ _ _ _ _ Hm). intros [= <- _]. eauto. }
  rewrite (tick_after_measure _ _ _ _ _ Hm). unfold publish. cbv zeta.
  rewrite (decide_True (P := (py_int (os_time e) `mod` 10 = 0)%Z)) by done.
  unfold mbind at 1, M_bind at 1.
  destruct (on_self (smooth raw.1 raw.2) w1) as [[[]|ex] w2];
    [|intros [= <- _]; eauto].
  unfold mbind at 1, M_bind at 1.
  destruct (on_self (roll (os_time e) raw.1 raw.2) w2) as [[[]|ex] w3];
    [|intros [= <- _]; eauto].
  unfold mbind at 1, M_bind at 1.
  destruct (on_self _ w3) as [[[]|ex] w4]; [|intros [= <- _]; eauto].
  unfold mbind at 1, M_bind at 1.
  destruct (save_store_fault_raises (os_disk e) w4 Hf) as [w5 ->].
  intros [= <- _]. eauto.
Qed.

Lemma run_loop_app (before rest : list TickEnv) (w w1 : World) :
  run_loop before w = (Ok tt, w1) →
  run_loop (before ++ rest) w = run_loop rest w1.
Proof.
  revert w. induction before as [|b before IH]; intros w; cbn [app run_loop].
  - by intros [= <-].
  - destruct (tick b w) as [[[]|ex] w2] eqn:Ht.
    + rewrite !(bind_ok _ _ _ _ _ Ht). apply IH.
    + by rewrite (bind_raise _ _ _ _ _ Ht).
Qed.

(** C3 fails on the code.  Let the thread have started and made the ticks
    [before] without an exception, and let the next tick [e] be one that
    saves ([int(now) % 10 == 0]) while the disk is at fault.  Then that
    tick raises, and [run] ends exactly there: its outcome is the outcome
    of the tick, whatever ticks [after] would have followed and whatever
    the final save would have met.  The failure is not ignored, the loop
    does not go on, and no later save retries. *)
Theorem periodic_save_failure_ends_run (s : StartEnv) (before after : list TickEnv)
    (e : TickEnv) (exit_disk : disk_fault) (w w1 : World) :
  (py_int (os_time e) `mod` 10 = 0)%Z →
  os_disk e ≠ NoFault →
  (run_start s;; run_loop before) w = (Ok tt, w1) →
  (∃ ex, (tick e w1).1 = Raise ex)
  ∧ run s (before ++ e :: after) exit_disk w = tick e w1.
Proof.
  intros Hdue Hf Hbefore.
  assert (Hraise : ∃ ex, (tick e w1).1 = Raise ex).
  { destruct (tick e w1) as [r w2] eqn:Ht.
    by apply (tick_save_fault_raises e w1 w2 r Hdue Hf). }
  split; [exact Hraise|].
  destruct Hraise as [ex Hex].
  destruct (tick e w1) as [r w2] eqn:Ht. cbn in Hex. subst r.
  unfold run. unfold mbind, M_bind in Hbefore |- *.
  destruct (run_start s w) as [[[]|ex0] w0]; [|discriminate].
  rewrite (run_loop_app before (e :: after) w0 w1 Hbefore).
  cbn [run_loop]. unfold mbind, M_bind. by rewrite Ht.
Qed.

(** The disk is full at the periodic save of the tick at 10.0 s: [run] ends
    there with [OSError].  The tick at 10.5 s is never made ([last_time]
    stays at 10), the final save is not attempted, and nothing but the
    partial temporary file is on disk; the usage of the two ticks made
    lives only in the ledger of the dead thread. *)
Lemma periodic_save_failure_ends_run_witness :
  let out := run start_example ticks_disk_full NoFault world_initial in
  out = tick (tick_env 10 300 70 DumpFails) world_running
  ∧ out.1 = Raise OSError
  ∧ last_time out.2 = 10
  ∧ disk out.2 !! "data.json"%string = None
  ∧ disk out.2 !! "data.json.tmp"%string = Some NotJson
  ∧ totals_of_day (store (self out.2)) "2024-03-07"
    = {| download_bytes := 200; upload_bytes := 20 |}.
Proof.
  split.
  - apply (periodic_save_failure_ends_run start_example
             [tick_env (19 # 2) 200 60 NoFault] [tick_env (21 # 2) 400 80 NoFault]
             (tick_env 10 300 70 DumpFails) NoFault world_initial world_running).
    + reflexivity.
    + discriminate.
    + by vm_compute.
  - by vm_compute.
Defined.

Lemma refresh_not_due (e : TickEnv) (w : World) :
  os_time e - _last_iface_refresh (self w) <= 10 →
  refresh_if_due e w = (Ok tt, w).
Proof.
  intros Hle. unfold refresh_if_due. unfold_M.
  destruct (Qlt_le_dec 10 (os_time e - _last_iface_refresh (self w))) as [Hlt|_];
    [|reflexivity].
  exfalso. apply (Qlt_irrefl 10). by eapply Qlt_le_trans.
Qed.

Lemma measure_run (e : TickEnv) (w w0 : World) (pernic : gmap string snetio) :
  refresh_if_due e (set_last_time (os_time e) w) = (Ok tt, w0) →
  os_io_counters e = Ok pernic →
  let r := sample_ifaces pernic (_included_ifaces (self w0))
             (_last_pernic (self w0)) in
  let elapsed := Qmax (1 # 1000000) (os_time e - last_time w) in
  measure e w =
  (Ok ((r.1.2, r.2), (raw_bps r.1.2 elapsed, raw_bps r.2 elapsed)),
   set_self (set_last_pernic r.1.1 (self w0)) w0).
Proof.
  intros Href Hread. unfold measure. unfold_M. by rewrite Href, Hread.
Qed.

Lemma sum_Z_zeros {A} (f : A → Z) (l : list A) :
  (∀ x, f x = 0%Z) → sum_Z (f <$> l) = 0%Z.
Proof.
  intros Hf. induction l as [|x l IH]; [reflexivity|].
  rewrite fmap_cons, sum_Z_cons, Hf, IH. reflexivity.
Qed.

(** X24.  [w0] is the world after the clock and the (possibly due)
    interface refresh of the tick.  When the counter read returns, the
    measurement returns too; an interface the read does not list adds
    nothing to the tick's deltas and the differencing loop leaves its
    baseline as it found it, and a read that lists no interface at all
    gives zero deltas and leaves every baseline as it found it. *)
Theorem missing_reading_keeps_baseline (e : TickEnv) (w w0 : World)
    (pernic : gmap string snetio) :
  refresh_if_due e (set_last_time (os_time e) w) = (Ok tt, w0) →
  os_io_counters e = Ok pernic →
  ∃ deltas raw w1,
    measure e w = (Ok (deltas, raw), w1)
    ∧ deltas.1 = sum_Z ((λ n, (iface_delta (_last_pernic (self w0)) pernic n).1)
                          <$> elements (_included_ifaces (self w0)))
    ∧ deltas.2 = sum_Z ((λ n, (iface_delta (_last_pernic (self w0)) pernic n).2)
                          <$> elements (_included_ifaces (self w0)))
    ∧ (∀ name, pernic !! name = None →
         iface_delta (_last_pernic (self w0)) pernic name = (0%Z, 0%Z)
         ∧ _last_pernic (self w1) !! name = _last_pernic (self w0) !! name)
    ∧ (pernic = ∅ →
         deltas = (0%Z, 0%Z) ∧ _last_pernic (self w1) = _last_pernic (self w0)).
Proof.
  intros Href Hread.
  pose proof (measure_run e w w0 pernic Href Hread) as Hm. cbv zeta in Hm.
  destruct (sample_ifaces_sums pernic (_included_ifaces (self w0))
              (_last_pernic (self w0))) as (Hd & Hu & Hl).
  cbv zeta in Hd, Hu, Hl.
  eexists _, _, _. split; [exact Hm|]. cbn [fst snd self set_self].
  split; [exact Hd|]. split; [exact Hu|]. split.
  - intros name Hname. split.
    + unfold iface_delta. by rewrite Hname.
    + cbn. by rewrite Hl, Hname.
  - intros ->. split.
    + rewrite Hd, Hu. f_equal; apply sum_Z_zeros; intros n;
        unfold iface_delta; by rewrite lookup_empty.
    + apply map_eq. intros n. cbn. by rewrite Hl, lookup_empty.
Qed.

(** After an empty read at 10.25 s the baseline of [Ethernet] is still the
    reading of the tick before. *)
Lemma missing_reading_keeps_baseline_witness :
  _last_pernic (self world_running) !! "Ethernet"%string = Some (200%Z, 60%Z)
  ∧ ∃ deltas raw w1,
      measure (tick_empty_read (41 # 4)) world_running = (Ok (deltas, raw), w1)
      ∧ deltas = (0%Z, 0%Z)
      ∧ _last_pernic (self w1) !! "Ethernet"%string = Some (200%Z, 60%Z).
Proof.
  split; [by vm_compute|].
  destruct (missing_reading_keeps_baseline (tick_empty_read (41 # 4))
              world_running
              (refresh_if_due (tick_empty_read (41 # 4))
                 (set_last_time (41 # 4) world_running)).2 ∅)
    as (deltas & raw & w1 & Hm & _ & _ & _ & Hempty).
  - by vm_compute.
  - reflexivity.
  - destruct (Hempty eq_refl) as [Hd Hl].
    exists deltas, raw, w1. split; [exact Hm|]. split; [exact Hd|].
    rewrite Hl. by vm_compute.
Defined.

Lemma queries_do_not_modify_ledger_witness :
  let clock := {| year := 2024; month := 3; day := 8 |} in
  let s := {| by_day := {[ "2024-03-07"%string :=
                           {[ "down"%string := 5%Z; "up"%string := 7%Z ]} ]} |} in
  get_today clock None s = (Ok {| download_bytes := 0; upload_bytes := 0 |}, s)
  ∧ clear_today clock None s = (Ok tt, s).
Proof.
  intros clock s.
  destruct (queries_do_not_modify_ledger clock s) as (_ & _ & Hget & _ & Hclear).
  split; [apply Hget | apply Hclear]; reflexivity.
Defined.

(** ** Usage ledger: accumulation *)

Section LedgerAccumulation.

Variable clock : datetime.

Lemma down_ne_up : ("down" : string) ≠ "up".
Proof. discriminate. Qed.

Lemma up_ne_down : ("up" : string) ≠ "down".
Proof. discriminate. Qed.

(** Every outcome of [add_usage], by the shape of the day's entry. *)
Lemma add_usage_cases (dt : datetime) (d u : Z) (s : UsageStore) :
  let dkey := today_key clock (Some dt) in
  match by_day s !! dkey with
  | None =>
      add_usage clock dt d u s =
      (Ok tt, {| by_day :=
                   <[dkey := <["up" := (0 + Z.max 0 u)%Z]>
                               (<["down" := (0 + Z.max 0 d)%Z]> zero_entry)]>
                     (by_day s) |})
  | Some e =>
      match e !! "down", e !! "up" with
      | None, _ => add_usage clock dt d u s = (Raise KeyError, s)
      | Some a, None =>
          add_usage clock dt d u s =
          (Raise KeyError,
           {| by_day := <[dkey := <["down" := (a + Z.max 0 d)%Z]> e]> (by_day s) |})
      | Some a, Some b =>
          add_usage clock dt d u s =
          (Ok tt, {| by_day :=
                       <[dkey := <["up" := (b + Z.max 0 u)%Z]>
                                   (<["down" := (a + Z.max 0 d)%Z]> e)]>
                         (by_day s) |})
      end
  end.
Proof.
  cbv zeta. unfold add_usage, by_day_iadd. unfold_M.
  destruct (by_day s !! today_key clock (Some dt)) as [e|] eqn:He.
  - rewrite He. destruct (e !! "down") as [a|] eqn:Ha; [|by destruct s].
    cbn [by_day]. rewrite lookup_insert_eq.
    rewrite (lookup_insert_ne _ _ _ _ down_ne_up).
    destruct (e !! "up") as [b|] eqn:Hb; [|reflexivity].
    by rewrite insert_insert_eq.
  - assert (Hd : zero_entry !! "down" = Some 0%Z) by reflexivity.
    assert (Hu : zero_entry !! "up" = Some 0%Z) by reflexivity.
    cbn [by_day]. rewrite lookup_insert_eq, Hd. cbn [by_day].
    rewrite lookup_insert_eq, (lookup_insert_ne _ _ _ _ down_ne_up), Hu.
    by rewrite !insert_insert_eq.
Qed.


Lemma entry_totals_updated (e : gmap string Z) (a b : Z) :
  entry_totals (<["up" := b]> (<["down" := a]> e))
  = {| download_bytes := a; upload_bytes := b |}.
Proof.
  unfold entry_totals.
  rewrite (lookup_insert_ne _ _ _ _ up_ne_down), !lookup_insert_eq. reflexivity.
Qed.

(** X1.  An [add_usage] that returns adds the clamped deltas to the totals
    of the day of [dt], creating the entry if needed: the totals never go
    down, also for negative deltas, and no other day is touched. *)
Theorem add_usage_adds_to_today (dt : datetime) (d u : Z) (s s' : UsageStore) :
  add_usage clock dt d u s = (Ok tt, s') →
  let dkey := today_key clock (Some dt) in
  get_today clock (Some dt) s' =
    (Ok {| download_bytes := download_bytes (totals_of_day s dkey) + Z.max 0 d;
           upload_bytes := upload_bytes (totals_of_day s dkey) + Z.max 0 u |}, s')
  ∧ (download_bytes (totals_of_day s dkey) ≤ download_bytes (totals_of_day s' dkey))%Z
  ∧ (upload_bytes (totals_of_day s dkey) ≤ upload_bytes (totals_of_day s' dkey))%Z
  ∧ (∀ k, k ≠ dkey → by_day s' !! k = by_day s !! k)
  ∧ dom (by_day s') = {[ dkey ]} ∪ dom (by_day s).
Proof.
  intros Hadd. cbv zeta.
  pose proof (add_usage_cases dt d u s) as Hc. cbv zeta in Hc.
  rewrite get_today_totals. unfold totals_of_day.
  destruct (by_day s !! today_key clock (Some dt)) as [e|] eqn:He.
  - destruct (e !! "down") as [a|] eqn:Ha; [|congruence].
    destruct (e !! "up") as [b|] eqn:Hb; [|congruence].
    rewrite Hc in Hadd. injection Hadd as <-. cbn [by_day].
    rewrite lookup_insert_eq, entry_totals_updated.
    unfold entry_totals. rewrite Ha, Hb. cbn.
    repeat split; try lia.
    + intros k Hk. by rewrite lookup_insert_ne.
    + by rewrite dom_insert_L.
  - rewrite Hc in Hadd. injection Hadd as <-. cbn [by_day].
    rewrite lookup_insert_eq, entry_totals_updated. cbn.
    repeat split; try lia.
    + intros k Hk. by rewrite lookup_insert_ne.
    + by rewrite dom_insert_L.
Qed.

(** X2.  For non-negative deltas, accumulating [(d1, u1)] and then
    [(d2, u2)] on the same day gives the same ledger as accumulating
    [(d1 + d2, u1 + u2)] once. *)
Theorem add_usage_additive (dt : datetime) (d1 u1 d2 u2 : Z) (s s1 : UsageStore) :
  (0 ≤ d1)%Z → (0 ≤ u1)%Z → (0 ≤ d2)%Z → (0 ≤ u2)%Z →
  add_usage clock dt d1 u1 s = (Ok tt, s1) →
  add_usage clock dt d2 u2 s1 = add_usage clock dt (d1 + d2) (u1 + u2) s
  ∧ (add_usage clock dt d2 u2 s1).1 = Ok tt.
Proof.
  intros Hd1 Hu1 Hd2 Hu2 Hadd.
  pose proof (add_usage_cases dt d1 u1 s) as Hc. cbv zeta in Hc.
  pose proof (add_usage_cases dt (d1 + d2) (u1 + u2) s) as Hc12. cbv zeta in Hc12.
  pose proof (add_usage_cases dt d2 u2 s1) as Hc2. cbv zeta in Hc2.
  assert (Hmerge : ∀ (e : gmap string Z) a b,
    <["up" := (b + Z.max 0 u1 + Z.max 0 u2)%Z]>
      (<["down" := (a + Z.max 0 d1 + Z.max 0 d2)%Z]>
         (<["up" := (b + Z.max 0 u1)%Z]> (<["down" := (a + Z.max 0 d1)%Z]> e)))
    = <["up" := (b + Z.max 0 (u1 + u2))%Z]>
        (<["down" := (a + Z.max 0 (d1 + d2))%Z]> e)).
  { intros e a b. apply map_eq. intros k.
    destruct (decide (k = "up")) as [->|Hku].
    - rewrite !lookup_insert_eq. f_equal. lia.
    - destruct (decide (k = "down")) as [->|Hkd].
      + rewrite !(lookup_insert_ne _ _ _ _ up_ne_down), !lookup_insert_eq.
        f_equal. lia.
      + rewrite !lookup_insert_ne by congruence. done. }
  destruct (by_day s !! today_key clock (Some dt)) as [e|] eqn:He.
  - destruct (e !! "down") as [a|] eqn:Ha; [|congruence].
    destruct (e !! "up") as [b|] eqn:Hb; [|congruence].
    rewrite Hc in Hadd. injection Hadd as <-. cbn [by_day] in Hc2.
    rewrite lookup_insert_eq in Hc2.
    rewrite (lookup_insert_ne _ _ _ _ up_ne_down), !lookup_insert_eq in Hc2.
    rewrite Hc2, Hc12. rewrite insert_insert_eq, Hmerge. done.
  - rewrite Hc in Hadd. injection Hadd as <-. cbn [by_day] in Hc2.
    rewrite lookup_insert_eq in Hc2.
    rewrite (lookup_insert_ne _ _ _ _ up_ne_down), !lookup_insert_eq in Hc2.
    rewrite Hc2, Hc12. rewrite insert_insert_eq, Hmerge. done.
Qed.

(** X3.  [add_usage] raises [KeyError] exactly when the day has an entry
    that lacks ["down"] or ["up"].  When only ["up"] is missing it raises
    after the download total has been increased. *)
Theorem add_usage_incomplete_entry (dt : datetime) (d u : Z) (s : UsageStore) :
  let dkey := today_key clock (Some dt) in
  ((add_usage clock dt d u s).1 = Raise KeyError ↔
     ∃ e, by_day s !! dkey = Some e ∧ (e !! "down" = None ∨ e !! "up" = None))
  ∧ (∀ e, by_day s !! dkey = Some e → e !! "down" = None →
       add_usage clock dt d u s = (Raise KeyError, s))
  ∧ (∀ e a, by_day s !! dkey = Some e → e !! "down" = Some a → e !! "up" = None →
       ∃ s', add_usage clock dt d u s = (Raise KeyError, s')
             ∧ get_today clock (Some dt) s' =
               (Ok {| download_bytes := a + Z.max 0 d; upload_bytes := 0 |}, s')).
Proof.
  cbv zeta. pose proof (add_usage_cases dt d u s) as Hc. cbv zeta in Hc.
  split; [|split].
  - destruct (by_day s !! today_key clock (Some dt)) as [e|] eqn:He.
    + destruct (e !! "down") as [a|] eqn:Ha.
      * destruct (e !! "up") as [b|] eqn:Hb; rewrite Hc; cbn.
        -- split; [discriminate|]. intros (e' & [= <-] & [?|?]); congruence.
        -- split; [|done]. intros _. exists e. auto.
      * rewrite Hc. cbn. split; [|done]. intros _. exists e. auto.
    + rewrite Hc. cbn. split; [discriminate|]. by intros (e' & ? & _).
  - intros e He Ha. by rewrite He, Ha in Hc.
  - intros e a He Ha Hb. rewrite He, Ha, Hb in Hc. eexists. split; [exact Hc|].
    rewrite get_today_totals. unfold totals_of_day. cbn [by_day].
    rewrite lookup_insert_eq. unfold entry_totals.
    rewrite lookup_insert_eq, (lookup_insert_ne _ _ _ _ down_ne_up), Hb. done.
Qed.

(** X4.  [clear_today] never raises; afterwards the day of [dt] has zero
    totals, every other day has the entry it had, and no day-key is added or
    removed. *)
Theorem clear_today_zeroes_only_today (dt : option datetime) (s : UsageStore) :
  ∃ s', clear_today clock dt s = (Ok tt, s')
        ∧ totals_of_day s' (today_key clock dt)
          = {| download_bytes := 0; upload_bytes := 0 |}
        ∧ (∀ k, k ≠ today_key clock dt → by_day s' !! k = by_day s !! k)
        ∧ dom (by_day s') = dom (by_day s).
Proof.
  unfold clear_today. unfold_M. unfold totals_of_day.
  destruct (by_day s !! today_key clock dt) as [e|] eqn:He.
  - eexists. split; [reflexivity|]. cbn [by_day]. rewrite lookup_insert_eq.
    split; [reflexivity|]. split.
    + intros k Hk. by rewrite lookup_insert_ne.
    + rewrite dom_insert_L. apply (elem_of_dom_2 (D := gset string)) in He.
      by apply subseteq_union_1_L, singleton_subseteq_l.
  - exists s. by rewrite He.
Qed.

End LedgerAccumulation.

Lemma add_usage_adds_to_today_witness :
  let clock := {| year := 2024; month := 3; day := 7 |} in
  let s := {| by_day := {[ "2024-03-07"%string :=
                           {[ "down"%string := 5%Z; "up"%string := 7%Z ]} ]} |} in
  ∃ s', add_usage clock clock 10 (-3) s = (Ok tt, s')
        ∧ get_today clock (Some clock) s' =
          (Ok {| download_bytes := 15; upload_bytes := 7 |}, s').
Proof.
  intros clock s. eexists. split; [reflexivity|].
  apply (add_usage_adds_to_today clock clock 10 (-3) s). reflexivity.
Defined.

Lemma add_usage_additive_witness :
  let clock := {| year := 2024; month := 3; day := 7 |} in
  add_usage clock clock 4 6 (add_usage clock clock 1 2 UsageStore_new).2
  = add_usage clock clock (1 + 4) (2 + 6) UsageStore_new.
Proof.
  intros clock.
  apply (add_usage_additive clock clock 1 2 4 6 UsageStore_new); try lia.
  reflexivity.
Defined.

(** ** Usage ledger: months *)

Lemma prefix_app (a b : string) : String.prefix a (a +:+ b) = true.
Proof.
  induction a as [|c a IH]; [by destruct b|].
  change (String c a +:+ b)%string with (String c (a +:+ b)). cbn [String.prefix].
  by destruct (ascii_dec c c).
Qed.

Lemma today_key_month_key (clock : datetime) (dt : option datetime) :
  today_key clock dt = (month_key clock dt +:+ ("-" +:+ dec2 (day (default clock dt))))%string.
Proof. reflexivity. Qed.

Lemma month_key_prefix_today_key (clock : datetime) (dt : option datetime) :
  String.prefix (month_key clock dt) (today_key clock dt) = true.
Proof. rewrite today_key_month_key. apply prefix_app. Qed.

(** The sum over the days of a month, with the day [k] set apart. *)
Lemma days_sum_split (mkey k : string) (D : gset string) (g : string → Z) :
  k ∉ D →
  sum_Z (g <$> filter (λ dkey, String.prefix mkey dkey = true)
                 (elements ({[ k ]} ∪ D)))
  = ((if String.prefix mkey k then g k else 0)
     + sum_Z (g <$> filter (λ dkey, String.prefix mkey dkey = true) (elements D)))%Z.
Proof.
  intros Hk.
  rewrite (sum_Z_perm _ (g <$> filter (λ dkey, String.prefix mkey dkey = true)
                                (k :: elements D))).
  2:{ apply fmap_Permutation, filter_Permutation. by apply elements_union_singleton. }
  rewrite filter_cons. destruct (String.prefix mkey k) eqn:Hp.
  - rewrite decide_True by done. by rewrite fmap_cons, sum_Z_cons.
  - rewrite decide_False by done. by rewrite Z.add_0_l.
Qed.

Lemma month_sum_update (g : UsageTotals → Z) (s : UsageStore) (k mkey : string)
    (e' : gmap string Z) :
  g {| download_bytes := 0; upload_bytes := 0 |} = 0%Z →
  let s' := {| by_day := <[k := e']> (by_day s) |} in
  sum_Z ((λ dkey, g (totals_of_day s' dkey)) <$> days_of_month s' mkey)
  = (sum_Z ((λ dkey, g (totals_of_day s dkey)) <$> days_of_month s mkey)
     + (if String.prefix mkey k
        then g (entry_totals e') - g (totals_of_day s k) else 0))%Z.
Proof.
  intros Hg0. cbv zeta. unfold days_of_month. cbn [by_day].
  set (D := dom (by_day s) ∖ {[ k ]}).
  assert (HkD : k ∉ D) by (unfold D; rewrite elem_of_difference, elem_of_singleton; tauto).
  assert (Hdom' : dom (<[k := e']> (by_day s)) = {[ k ]} ∪ D).
  { rewrite dom_insert_L. unfold D. apply set_eq. intros x.
    rewrite !elem_of_union, elem_of_difference, elem_of_singleton.
    destruct (decide (x = k)); tauto. }
  rewrite Hdom', days_sum_split by done.
  assert (Hrest : ∀ s1 s2 : UsageStore,
            (∀ x, x ≠ k → by_day s1 !! x = by_day s2 !! x) →
            sum_Z ((λ dkey, g (totals_of_day s1 dkey)) <$>
                     filter (λ dkey, String.prefix mkey dkey = true) (elements D))
            = sum_Z ((λ dkey, g (totals_of_day s2 dkey)) <$>
                     filter (λ dkey, String.prefix mkey dkey = true) (elements D))).
  { intros s1 s2 Hs. f_equal. apply list_fmap_ext. intros i x Hx.
    apply list_elem_of_lookup_2, list_elem_of_filter in Hx as [_ Hx].
    apply elem_of_elements in Hx.
    unfold totals_of_day. rewrite Hs; [done|]. by intros ->. }
  rewrite (Hrest {| by_day := <[k := e']> (by_day s) |} s).
  2:{ intros x Hx. cbn. by rewrite lookup_insert_ne. }
  assert (Hk' : totals_of_day {| by_day := <[k := e']> (by_day s) |} k = entry_totals e').
  { unfold totals_of_day. cbn. by rewrite lookup_insert_eq. }
  rewrite Hk'.
  destruct (by_day s !! k) as [e|] eqn:He.
  - assert (Hdom : dom (by_day s) = {[ k ]} ∪ D).
    { unfold D. apply set_eq. intros x.
      rewrite !elem_of_union, elem_of_difference, elem_of_singleton.
      apply (elem_of_dom_2 (D := gset string)) in He.
      destruct (decide (x = k)) as [->|]; tauto. }
    rewrite Hdom, days_sum_split by done.
    destruct (String.prefix mkey k); lia.
  - assert (Hdom : dom (by_day s) = D).
    { unfold D. apply set_eq. intros x.
      rewrite elem_of_difference, elem_of_singleton.
      apply (not_elem_of_dom (D := gset string)) in He.
      destruct (decide (x = k)) as [->|]; tauto. }
    rewrite Hdom.
    assert (H0 : g (totals_of_day s k) = 0%Z).
    { unfold totals_of_day. by rewrite He. }
    rewrite H0. destruct (String.prefix mkey k); lia.
Qed.

(** X5.  Usage added for the day of [dt] shows in the month of [dt]: after
    an [add_usage] that returns, [get_month(dt)] has grown by exactly the
    clamped deltas, and a month whose key is not a prefix of that day's key
    reports what it reported before. *)
Theorem add_usage_shows_in_month (clock dt : datetime) (d u : Z) (s s' : UsageStore) :
  add_usage clock dt d u s = (Ok tt, s') →
  get_month clock (Some dt) s' =
    (Ok {| download_bytes :=
             download_bytes (month_totals_spec s (month_key clock (Some dt)))
             + Z.max 0 d;
           upload_bytes :=
             upload_bytes (month_totals_spec s (month_key clock (Some dt)))
             + Z.max 0 u |}, s')
  ∧ (∀ other,
       String.prefix (month_key clock other) (today_key clock (Some dt)) = false →
       (get_month clock other s').1 = (get_month clock other s).1).
Proof.
  intros Hadd.
  assert (Hs' : ∃ e', s' = {| by_day := <[today_key clock (Some dt) := e']> (by_day s) |}
                      ∧ download_bytes (entry_totals e')
                        = (download_bytes (totals_of_day s (today_key clock (Some dt)))
                           + Z.max 0 d)%Z
                      ∧ upload_bytes (entry_totals e')
                        = (upload_bytes (totals_of_day s (today_key clock (Some dt)))
                           + Z.max 0 u)%Z).
  { pose proof (add_usage_cases clock dt d u s) as Hc. cbv zeta in Hc.
    unfold totals_of_day.
    destruct (by_day s !! today_key clock (Some dt)) as [e|] eqn:He.
    - destruct (e !! "down") as [a|] eqn:Ha; [|congruence].
      destruct (e !! "up") as [b|] eqn:Hb; [|congruence].
      rewrite Hc in Hadd. injection Hadd as <-. eexists. split; [reflexivity|].
      rewrite entry_totals_updated. unfold entry_totals. by rewrite Ha, Hb.
    - rewrite Hc in Hadd. injection Hadd as <-. eexists. split; [reflexivity|].
      by rewrite entry_totals_updated. }
  destruct Hs' as (e' & -> & Hd & Hu).
  split.
  - rewrite get_month_totals. unfold month_totals_spec at 1.
    rewrite (month_sum_update download_bytes) by reflexivity.
    rewrite (month_sum_update upload_bytes) by reflexivity.
    rewrite month_key_prefix_today_key, Hd, Hu.
    unfold month_totals_spec. cbn [download_bytes upload_bytes].
    f_equal. f_equal. f_equal; lia.
  - intros other Hp. rewrite !get_month_totals. cbn [fst].
    unfold month_totals_spec.
    rewrite (month_sum_update download_bytes) by reflexivity.
    rewrite (month_sum_update upload_bytes) by reflexivity.
    rewrite Hp, !Z.add_0_r. reflexivity.
Qed.

Lemma add_usage_shows_in_month_witness :
  let dt := {| year := 2024; month := 3; day := 7 |} in
  let s := {| by_day := {[ "2024-03-01"%string :=
                           {[ "down"%string := 5%Z; "up"%string := 7%Z ]};
                           "2024-02-29"%string :=
                           {[ "down"%string := 100%Z; "up"%string := 100%Z ]} ]} |} in
  ∃ s', add_usage dt dt 10 20 s = (Ok tt, s')
        ∧ get_month dt (Some dt) s' =
          (Ok {| download_bytes := 15; upload_bytes := 27 |}, s').
Proof.
  intros dt s. eexists. split; [reflexivity|].
  apply (add_usage_shows_in_month dt dt 10 20 s). reflexivity.
Defined.

(** ** Usage repository: atomic replacement *)

Lemma tmp_ne_path (p : string) : (p +:+ ".tmp")%string ≠ p.
Proof.
  induction p as [|c p IH]; [discriminate|].
  change (String c p +:+ ".tmp")%string with (String c (p +:+ ".tmp")).
  intros [= H]. by apply IH.
Qed.

(** Every outcome of [save]. *)
Lemma save_cases (fault : disk_fault) (r : UsageRepository) (s : UsageStore)
    (fs : gmap string file) :
  let tmp := (path r +:+ ".tmp")%string in
  save fault r s fs =
  match fault with
  | NoFault => (Ok tt, <[path r := Document (to_json s)]> (delete tmp fs))
  | OpenFails => (Raise OSError, fs)
  | DumpFails => (Raise OSError, <[tmp := NotJson]> fs)
  | ReplaceFails => (Raise OSError, <[tmp := Document (to_json s)]> fs)
  end.
Proof.
  cbv zeta. destruct fault; unfold save; unfold_M; try reflexivity.
  rewrite lookup_insert_eq. by rewrite delete_insert_eq.
Qed.

(** X6.  [save] replaces the ledger file atomically.  Whatever the disk
    does, afterwards the file at the repository path is either exactly as
    it was (and [save] raised) or the complete new document (and [save]
    returned): it is never left half-written.  Only the path and its
    [.tmp] companion are ever touched, and a [save] that returns leaves no
    [.tmp] file behind. *)
Theorem save_is_atomic (fault : disk_fault) (r : UsageRepository) (s : UsageStore)
    (fs fs' : gmap string file) (res : result unit) :
  save fault r s fs = (res, fs') →
  ((res = Ok tt ∧ fault = NoFault
    ∧ fs' !! path r = Some (Document (to_json s))
    ∧ fs' !! (path r +:+ ".tmp")%string = None)
   ∨ (res = Raise OSError ∧ fault ≠ NoFault ∧ fs' !! path r = fs !! path r))
  ∧ (∀ p, p ≠ path r → p ≠ (path r +:+ ".tmp")%string → fs' !! p = fs !! p).
Proof.
  pose proof (tmp_ne_path (path r)) as Hne.
  rewrite save_cases. destruct fault; intros [= <- <-].
  - split.
    + left. rewrite lookup_insert_eq, lookup_insert_ne, lookup_delete_eq by done.
      done.
    + intros p Hp Ht. by rewrite lookup_insert_ne, lookup_delete_ne.
  - split; [right; done | done].
  - split.
    + right. by rewrite lookup_insert_ne.
    + intros p Hp Ht. by rewrite lookup_insert_ne.
  - split.
    + right. by rewrite lookup_insert_ne.
    + intros p Hp Ht. by rewrite lookup_insert_ne.
Qed.

Lemma save_is_atomic_witness :
  let fs := ({[ "data.json"%string := Document (to_json UsageStore_new) ]}
             : gmap string file) in
  let s := {| by_day := {[ "2024-03-07"%string :=
                           {[ "down"%string := 5%Z; "up"%string := 7%Z ]} ]} |} in
  (save DumpFails repo_example s fs).2 !! "data.json"%string
  = Some (Document (to_json UsageStore_new)).
Proof.
  intros fs s.
  destruct (save_is_atomic DumpFails repo_example s fs
              (save DumpFails repo_example s fs).2 (Raise OSError) eq_refl)
    as [[(H & _)|(_ & _ & H)] _]; [discriminate H|].
  exact H.
Defined.

Lemma load_reads_path (readable : bool) (r : UsageRepository)
    (fs1 fs2 : gmap string file) :
  fs1 !! path r = fs2 !! path r →
  (load readable r fs1).1 = (load readable r fs2).1.
Proof.
  intros H. unfold load. unfold_M. rewrite H.
  destruct (fs2 !! path r) as [f|]; [|reflexivity].
  destruct readable; [|reflexivity].
  destruct (json_load f) as [v|]; [|reflexivity].
  by destruct (from_json v).
Qed.

(** X7.  A failed [save] loses nothing that was saved before: after a
    [save] of [s1] that returned and a later [save] of [s2] that raised,
    whatever the fault, [load] still returns [s1]. *)
Theorem failed_save_keeps_last_saved (f1 f2 : disk_fault) (r : UsageRepository)
    (s1 s2 : UsageStore) (fs fs1 fs2 : gmap string file) (ex : exn) :
  save f1 r s1 fs = (Ok tt, fs1) →
  save f2 r s2 fs1 = (Raise ex, fs2) →
  load true r fs2 = (Ok (Ledger s1), fs2).
Proof.
  intros H1 H2. pose proof (tmp_ne_path (path r)) as Hne.
  rewrite save_cases in H1, H2.
  destruct f1; try discriminate. injection H1 as <-.
  assert (Hp : fs2 !! path r = Some (Document (to_json s1))).
  { destruct f2; try discriminate; injection H2 as _ <-;
      rewrite ?(lookup_insert_ne _ (path r +:+ ".tmp")%string) by done;
      apply lookup_insert_eq. }
  rewrite (load_document r fs2 (to_json s1) Hp). by rewrite from_json_to_json.
Qed.

Lemma failed_save_keeps_last_saved_witness :
  let s1 := {| by_day := {[ "2024-03-07"%string :=
                            {[ "down"%string := 5%Z; "up"%string := 7%Z ]} ]} |} in
  let fs1 := (save NoFault repo_example s1 ∅).2 in
  let fs2 := (save ReplaceFails repo_example UsageStore_new fs1).2 in
  load true repo_example fs2 = (Ok (Ledger s1), fs2).
Proof.
  intros s1 fs1 fs2.
  by apply (failed_save_keeps_last_saved NoFault ReplaceFails repo_example
              s1 UsageStore_new ∅ fs1 fs2 OSError).
Defined.

(** X8.  "Clear Today's Data" never raises.  In memory the day is zeroed
    and nothing else of the monitor changes.  If the save goes through, a
    [load] returns the cleared ledger; if it fails, the ledger file still
    holds what it held, so the clearing is not durable. *)
Theorem on_clear_today_spec (clock : datetime) (fault : disk_fault) (w : World) :
  ∃ w', _on_clear_today clock fault w = (Ok tt, w')
        ∧ self w' = set_store (clear_today clock None (store (self w))).2 (self w)
        ∧ totals_of_day (store (self w')) (today_key clock None)
          = {| download_bytes := 0; upload_bytes := 0 |}
        ∧ (fault = NoFault →
             load true (repo (self w')) (disk w')
             = (Ok (Ledger (store (self w'))), disk w'))
        ∧ (fault ≠ NoFault →
             disk w' !! path (repo (self w')) = disk w !! path (repo (self w))).
Proof.
  assert (Hc : ∃ s', clear_today clock None (store (self w)) = (Ok tt, s')
                     ∧ totals_of_day s' (today_key clock None)
                       = {| download_bytes := 0; upload_bytes := 0 |}).
  { unfold clear_today, totals_of_day. unfold_M.
    destruct (by_day (store (self w)) !! today_key clock None) eqn:He.
    - eexists. split; [reflexivity|]. cbn. by rewrite lookup_insert_eq.
    - eexists. split; [reflexivity|]. by rewrite He. }
  destruct Hc as (s' & Hclear & Hzero).
  destruct (save fault (repo (self w)) s' (disk w)) as [res fs'] eqn:Hsave.
  assert (Hrun : (on_self (zoom store set_store (clear_today clock None));;
                  save_store fault) w
                 = (res, set_disk fs' (set_self (set_store s' (self w)) w))).
  { unfold save_store. unfold_M. rewrite Hclear.
    cbn [self set_self store set_store repo disk]. by rewrite Hsave. }
  unfold _on_clear_today, try_except. rewrite Hrun, Hclear.
  exists (set_disk fs' (set_self (set_store s' (self w)) w)).
  pose proof (tmp_ne_path (path (repo (self w)))) as Hne.
  rewrite save_cases in Hsave.
  destruct fault; injection Hsave as <- <-;
    (split; [reflexivity|]);
    cbn [self set_self set_disk store set_store repo disk snd];
    repeat split; try done.
  - intros _. rewrite (load_document _ _ (to_json s')) by apply lookup_insert_eq.
    by rewrite from_json_to_json.
  - intros _. by rewrite lookup_insert_ne.
  - intros _. by rewrite lookup_insert_ne.
Qed.

(** ** Clean exit *)

(** X9.  When the start of [run] and every tick went through, [run]
    returns, whatever the final save meets; the monitor is as the last
    tick left it.  With a working disk the ledger is on disk when [run]
    returns: a [load] gives the monitor's final store. *)
Theorem run_clean_exit_persists (s : StartEnv) (ticks : list TickEnv)
    (exit_disk : disk_fault) (w w1 : World) :
  (run_start s;; run_loop ticks) w = (Ok tt, w1) →
  ∃ w2, run s ticks exit_disk w = (Ok tt, w2)
        ∧ self w2 = self w1
        ∧ (exit_disk = NoFault →
             load true (repo (self w2)) (disk w2)
             = (Ok (Ledger (store (self w2))), disk w2)).
Proof.
  intros Hloop. pose proof (tmp_ne_path (path (repo (self w1)))) as Hne.
  destruct (save exit_disk (repo (self w1)) (store (self w1)) (disk w1))
    as [res fs'] eqn:Hsave.
  assert (Hstore : save_store exit_disk w1 = (res, set_disk fs' w1)).
  { unfold save_store. unfold_M. by rewrite Hsave. }
  assert (Hrun : run s ticks exit_disk w
                 = try_except (save_store exit_disk) (mret tt) w1).
  { unfold run. unfold mbind, M_bind in Hloop |- *.
    destruct (run_start s w) as [[[]|ex] w0]; [|discriminate].
    by rewrite Hloop. }
  exists (set_disk fs' w1). rewrite Hrun. unfold try_except. rewrite Hstore.
  rewrite save_cases in Hsave.
  destruct exit_disk; injection Hsave as <- <-;
    (split; [reflexivity|]); (split; [reflexivity|]); try done.
  intros _. cbn [self set_disk disk].
  rewrite (load_document _ _ (to_json (store (self w1)))) by apply lookup_insert_eq.
  by rewrite from_json_to_json.
Qed.

Lemma run_clean_exit_persists_witness :
  let out := run start_example [tick_env (19 # 2) 200 60 NoFault] NoFault
               world_initial in
  out.1 = Ok tt
  ∧ load true repo_example (disk out.2) = (Ok (Ledger (store (self out.2))), disk out.2).
Proof.
  destruct (run_clean_exit_persists start_example
              [tick_env (19 # 2) 200 60 NoFault] NoFault world_initial world_running)
    as (w2 & Hrun & Hself & Hload); [by vm_compute|].
  cbv zeta. rewrite Hrun. split; [reflexivity|]. cbn [snd].
  specialize (Hload eq_refl). rewrite Hself in Hload at 1. exact Hload.
Defined.

(** ** Interface selection: soundness and baselines *)

Lemma restrict_to_nic_subseteq (nic : option string) (included : gset string) :
  restrict_to_nic nic included ⊆ included.
Proof.
  unfold restrict_to_nic. destruct nic as [n|]; [|done].
  destruct (decide _) as [[_ Hin]|_]; [|done].
  by apply singleton_subseteq_l.
Qed.

(** X10.  Whatever interface is pinned, every selected interface reports
    up, has none of the excluded prefixes and has I/O counters: pinning
    never brings in a loopback, virtual or down interface. *)
Theorem selected_ifaces_are_selectable (c : Config) (stats : gmap string snicstats)
    (all_counters : gmap string snetio) (name : string) :
  name ∈ select_ifaces c stats all_counters →
  ∃ st, stats !! name = Some st ∧ isup st = true
        ∧ (∀ p, p ∈ exclude_prefixes → String.prefix p name = false)
        ∧ is_Some (all_counters !! name).
Proof.
  intros Hin. apply restrict_to_nic_subseteq, elem_of_filter_ifaces in Hin
    as (st & Hst & Hup & Hex & Hc).
  exists st. repeat split; try done.
  - by apply startswith_any_false.
  - by apply elem_of_dom.
Qed.

Lemma selected_ifaces_are_selectable_witness :
  ∃ st, stats_example !! "Ethernet"%string = Some st ∧ isup st = true
        ∧ (∀ p, p ∈ exclude_prefixes → String.prefix p "Ethernet" = false)
        ∧ is_Some (counters_example !! "Ethernet"%string).
Proof.
  apply (selected_ifaces_are_selectable (config_pinned "vEthernet (Default)")).
  by vm_compute.
Defined.

Lemma seed_lookup (all_counters : gmap string snetio) (last : gmap string (Z * Z))
    (included : gset string) (n : string) :
  set_fold (seed_step all_counters) last included !! n =
  match last !! n with
  | Some v => Some v
  | None =>
      if decide (n ∈ included)
      then (λ c, (bytes_recv c, bytes_sent c)) <$> all_counters !! n
      else None
  end.
Proof.
  pose (P := λ (acc : gmap string (Z * Z)) (X : gset string), acc !! n =
    match last !! n with
    | Some v => Some v
    | None => if decide (n ∈ X)
              then (λ c, (bytes_recv c, bytes_sent c)) <$> all_counters !! n
              else None
    end).
  change (P (set_fold (seed_step all_counters) last included) included).
  apply set_fold_ind_L; unfold P; clear P.
  - destruct (last !! n); [done|]. by rewrite decide_False by apply not_elem_of_empty.
  - intros x X acc Hx IH. unfold seed_step.
    destruct (decide (n = x)) as [->|Hne].
    + rewrite (decide_True (P := x ∈ {[x]} ∪ X))
        by (apply elem_of_union_l, elem_of_singleton_2; done).
      rewrite (decide_False (P := x ∈ X)) in IH by done.
      destruct (all_counters !! x) as [c|]; cbn.
      * destruct (decide (x ∈ dom acc)) as [Hd|Hd].
        -- apply elem_of_dom in Hd as [v Hv]. rewrite Hv in IH |- *.
           by destruct (last !! x).
        -- rewrite lookup_insert_eq. apply not_elem_of_dom in Hd.
           rewrite Hd in IH. by destruct (last !! x).
      * exact IH.
    + assert (Hiff : n ∈ {[x]} ∪ X ↔ n ∈ X).
      { rewrite elem_of_union, elem_of_singleton. tauto. }
      assert (Hacc : (match all_counters !! x with
                      | Some c => if decide (x ∈ dom acc) then acc
                                  else <[x := (bytes_recv c, bytes_sent c)]> acc
                      | None => acc
                      end) !! n = acc !! n).
      { destruct (all_counters !! x); [|done].
        destruct (decide (x ∈ dom acc)); [done|]. by rewrite lookup_insert_ne. }
      rewrite Hacc, IH. destruct (last !! n); [done|].
      destruct (decide (n ∈ X)).
      * by rewrite decide_True by (by apply Hiff).
      * by rewrite decide_False by (by rewrite Hiff).
Qed.

Lemma drop_lookup (included : gset string) (names : list string)
    (last : gmap string (Z * Z)) (n : string) :
  foldl (drop_step included) last names !! n =
  if decide (n ∈ names ∧ n ∉ included) then None else last !! n.
Proof.
  revert last. induction names as [|x names IH]; intros last; cbn [foldl].
  - rewrite decide_False; [done|]. intros [H _]. by apply elem_of_nil in H.
  - rewrite IH. unfold drop_step.
    destruct (decide (n ∈ names ∧ n ∉ included)) as [[Hn Hi]|Hno].
    + rewrite decide_True; [done|]. split; [by right | done].
    + destruct (decide (x ∈ included)) as [Hx|Hx].
      * destruct (decide (n ∈ x :: names ∧ n ∉ included)) as [[Hn Hi]|_]; [|done].
        apply elem_of_cons in Hn as [->|Hn]; [done|]. tauto.
      * destruct (decide (n = x)) as [->|Hne].
        -- rewrite lookup_delete_eq. rewrite decide_True; [done|].
           split; [by left | done].
        -- rewrite lookup_delete_ne by done.
           rewrite decide_False; [done|].
           intros [[->|Hn]%elem_of_cons Hi]; tauto.
Qed.

(** The baselines a refresh leaves. *)
Lemma refresh_baselines (m : NetMonitor) (stats : gmap string snicstats)
    (all_counters : gmap string snetio) :
  let included := select_ifaces (config m) stats all_counters in
  ∃ m', _refresh_ifaces (Ok stats) (Ok all_counters) m = (Ok tt, m')
        ∧ _included_ifaces m' = included
        ∧ ∀ n, _last_pernic m' !! n =
               if decide (n ∈ included) then
                 match _last_pernic m !! n with
                 | Some v => Some v
                 | None => (λ c, (bytes_recv c, bytes_sent c)) <$> all_counters !! n
                 end
               else None.
Proof.
  cbv zeta. unfold _refresh_ifaces. unfold_M.
  eexists. split; [reflexivity|]. split; [reflexivity|].
  intros n. cbn [_last_pernic set_included_ifaces set_last_pernic].
  rewrite drop_lookup, seed_lookup.
  set (included := select_ifaces (config m) stats all_counters).
  destruct (decide (n ∈ included)) as [Hin|Hout].
  - rewrite decide_False by tauto. done.
  - destruct (_last_pernic m !! n) as [v|] eqn:Hv.
    + rewrite decide_True; [done|]. split; [|done].
      apply elem_of_elements, elem_of_dom. rewrite seed_lookup, Hv. eauto.
    + by destruct (decide _).
Qed.

(** X11.  After a refresh the baselines are exactly those of the selected
    interfaces: an interface that dropped out loses its baseline, one that
    stays keeps it, and a newly selected one starts from the counters the
    OS reports at the refresh, not from zero.  Its first delta therefore
    counts only what was transferred since it was selected.  A refresh
    whose OS read raises changes nothing. *)
Theorem refresh_seeds_and_drops_baselines (m : NetMonitor)
    (stats : gmap string snicstats) (all_counters : gmap string snetio) :
  ∃ m', _refresh_ifaces (Ok stats) (Ok all_counters) m = (Ok tt, m')
        ∧ dom (_last_pernic m') = _included_ifaces m'
        ∧ (∀ n v, n ∈ _included_ifaces m' → _last_pernic m !! n = Some v →
             _last_pernic m' !! n = Some v)
        ∧ (∀ n c, n ∈ _included_ifaces m' → _last_pernic m !! n = None →
             all_counters !! n = Some c →
             _last_pernic m' !! n = Some (bytes_recv c, bytes_sent c)
             ∧ ∀ pernic c', pernic !! n = Some c' →
                 iface_delta (_last_pernic m') pernic n =
                 (Z.max 0 (bytes_recv c' - bytes_recv c),
                  Z.max 0 (bytes_sent c' - bytes_sent c)))
        ∧ (∀ ex counters_read,
             _refresh_ifaces (Raise ex) counters_read m = (Raise ex, m))
        ∧ (∀ ex, _refresh_ifaces (Ok stats) (Raise ex) m = (Raise ex, m)).
Proof.
  destruct (refresh_baselines m stats all_counters) as (m' & Hrun & Hinc & Hl).
  cbv zeta in Hinc, Hl. exists m'. split; [exact Hrun|]. rewrite Hinc.
  split; [|split; [|split; [|split]]].
  - apply set_eq. intros n. rewrite elem_of_dom, Hl.
    destruct (decide (n ∈ select_ifaces (config m) stats all_counters)) as [Hin|Hout].
    + split; [done|]. intros _.
      destruct (_last_pernic m !! n); [eauto|].
      apply restrict_to_nic_subseteq, elem_of_filter_ifaces in Hin
        as (_ & _ & _ & _ & [c Hc]%elem_of_dom).
      rewrite Hc. cbn. eauto.
    + split; [by intros [? ?] | done].
  - intros n v Hin Hv. by rewrite Hl, decide_True, Hv.
  - intros n c Hin Hnone Hc.
    assert (Hnew : _last_pernic m' !! n = Some (bytes_recv c, bytes_sent c)).
    { by rewrite Hl, decide_True, Hnone, Hc. }
    split; [exact Hnew|].
    intros pernic c' Hc'. unfold iface_delta. by rewrite Hc', Hnew.
  - intros ex counters_read. reflexivity.
  - intros ex. reflexivity.
Qed.

Lemma refresh_seeds_and_drops_baselines_witness :
  let m := set_last_pernic {[ "Loopback"%string := (9%Z, 9%Z) ]}
             (NetMonitor_init repo_example true POLL_INTERVAL_SEC config_auto
                UsageStore_new) in
  let m' := (_refresh_ifaces (Ok stats_example) (Ok counters_example) m).2 in
  _last_pernic m' !! "Ethernet"%string = Some (100%Z, 50%Z)
  ∧ _last_pernic m' !! "Loopback"%string = None.
Proof.
  intros m m'.
  destruct (refresh_seeds_and_drops_baselines m stats_example counters_example)
    as (m1 & Hrun & Hdom & _ & Hnew & _).
  assert (Hm : m' = m1) by (unfold m'; by rewrite Hrun).
  rewrite Hm. split.
  - apply (Hnew "Ethernet"%string (io 100 50)).
    + rewrite <- Hm. by vm_compute.
    + reflexivity.
    + reflexivity.
  - apply not_elem_of_dom. rewrite Hdom, <- Hm. by vm_compute.
Defined.

(** ** Baselines and tracked interfaces *)

Section Keeps.

Context {S : Type} (inv : S → Prop).

Lemma keeps_ret {A} (a : A) : keeps inv (mret a : M S A).
Proof. by intros s r s' [= _ <-]. Qed.

Lemma keeps_bind {A B} (c : M S A) (k : A → M S B) :
  keeps inv c → (∀ a, keeps inv (k a)) → keeps inv (c ≫= k).
Proof.
  intros Hc Hk s r s'. unfold mbind, M_bind.
  destruct (c s) as [[a|e] s1] eqn:Hcs.
  - intros Hks Hs. eapply Hk; [exact Hks|]. by eapply Hc.
  - intros [= _ <-] Hs. by eapply Hc.
Qed.

Lemma keeps_try_except {A} (c h : M S A) :
  keeps inv c → keeps inv h → keeps inv (try_except c h).
Proof.
  intros Hc Hh s r s'. unfold try_except.
  destruct (c s) as [[a|e] s1] eqn:Hcs.
  - intros [= _ <-] Hs. by eapply Hc.
  - intros Hhs Hs. eapply Hh; [exact Hhs|]. by eapply Hc.
Qed.

End Keeps.

Lemma keeps_of_preserves {S A V} (view : S → V) (P : V → Prop) (c : M S A) :
  preserves view c → keeps (λ s, P (view s)) c.
Proof. intros Hc s r s' H Hs. by rewrite (Hc _ _ _ H). Qed.

Lemma keeps_on_self {A} (inv : NetMonitor → Prop) (c : M NetMonitor A) :
  keeps inv c → keeps (λ w, inv (self w)) (on_self c).
Proof.
  intros Hc w r w'. unfold on_self, zoom.
  destruct (c (self w)) as [r1 m1] eqn:Hcm. intros [= _ <-] Hw. cbn.
  by eapply Hc.
Qed.

Lemma refresh_keeps_baselines stats_read counters_read :
  keeps baselines_match (_refresh_ifaces stats_read counters_read).
Proof.
  intros m r m' Hrun Hm.
  destruct stats_read as [stats|ex]; [|by injection Hrun as _ <-].
  destruct counters_read as [all_counters|ex]; [|by injection Hrun as _ <-].
  destruct (refresh_baselines m stats all_counters) as (m1 & Hrun1 & Hinc & Hl).
  cbv zeta in Hinc, Hl. rewrite Hrun1 in Hrun. injection Hrun as _ <-.
  unfold baselines_match. rewrite Hinc.
  apply set_eq. intros n. rewrite elem_of_dom, Hl.
  destruct (decide (n ∈ select_ifaces (config m) stats all_counters)) as [Hin|Hout].
  - split; [done|]. intros _.
    destruct (_last_pernic m !! n); [eauto|].
    apply restrict_to_nic_subseteq, elem_of_filter_ifaces in Hin
      as (_ & _ & _ & _ & [c Hc]%elem_of_dom).
    rewrite Hc. cbn. eauto.
  - split; [by intros [? ?] | done].
Qed.

Lemma sample_keeps_dom (pernic : gmap string snetio) (included : gset string)
    (last : gmap string (Z * Z)) :
  dom last = included →
  dom (sample_ifaces pernic included last).1.1 = included.
Proof.
  intros <-.
  destruct (sample_ifaces_sums pernic (dom last) last) as (_ & _ & Hl).
  cbv zeta in Hl. apply set_eq. intros n. rewrite !elem_of_dom, Hl.
  destruct (pernic !! n) as [c|]; [|done].
  destruct (decide (n ∈ dom last)) as [Hin|]; [|done].
  apply elem_of_dom in Hin. split; [done | eauto].
Qed.

Lemma measure_keeps_baselines (e : TickEnv) :
  keeps (λ w, baselines_match (self w)) (measure e).
Proof.
  unfold measure.
  apply keeps_bind; [by apply (keeps_of_preserves id), preserves_get | intros w].
  apply keeps_bind; [|intros _].
  { apply (keeps_of_preserves self baselines_match). by apply preserves_modify. }
  apply keeps_bind; [|intros _].
  { unfold refresh_if_due.
    apply keeps_bind; [by apply (keeps_of_preserves id), preserves_get | intros w0].
    destruct (Qlt_le_dec _ _); [|apply keeps_ret].
    apply keeps_bind; [|intros _].
    - apply (keeps_on_self baselines_match), refresh_keeps_baselines.
    - apply (keeps_of_preserves
               (λ w, (_last_pernic (self w), _included_ifaces (self w)))
               (λ v, dom v.1 = v.2)).
      apply (preserves_on_self (λ m, (_last_pernic m, _included_ifaces m))).
      by apply preserves_modify. }
  apply keeps_bind; [by apply (keeps_of_preserves id), preserves_of_result | intros pernic].
  intros w1 r w' Hrun Hw1. revert Hrun. unfold_M. intros [= _ <-].
  cbn. by apply sample_keeps_dom.
Qed.

Lemma publish_preserves_baselines (e : TickEnv) (deltas : Z * Z) (raw : Q * Q) :
  preserves (λ w, (_last_pernic (self w), _included_ifaces (self w)))
    (publish e deltas raw).
Proof.
  unfold publish. cbv zeta.
  apply preserves_bind; [|intros _].
  { apply (preserves_on_self (λ m, (_last_pernic m, _included_ifaces m))).
    unfold smooth.
    apply preserves_bind; [apply preserves_get | intros m].
    destruct (Qlt_le_dec _ _); [|by apply preserves_modify].
    apply preserves_bind; [|intros _].
    - destruct (_ema_down_bps m); [|by apply preserves_modify].
      destruct (_ema_up_bps m); [by apply preserves_modify|].
      apply preserves_bind; [by apply preserves_modify | intros _].
      apply preserves_raise.
    - apply preserves_bind; [apply preserves_get | intros m'].
      by apply preserves_modify. }
  apply preserves_bind; [|intros _].
  { apply (preserves_on_self (λ m, (_last_pernic m, _included_ifaces m))).
    unfold roll.
    apply preserves_bind; [apply preserves_get | intros m].
    apply preserves_bind; [by apply preserves_modify | intros _].
    by apply preserves_modify. }
  apply preserves_bind; [|intros _].
  { apply (preserves_on_self (λ m, (_last_pernic m, _included_ifaces m))).
    by apply preserves_zoom. }
  apply preserves_bind; [|intros _].
  { destruct (decide _); [|apply preserves_ret].
    apply (preserves_weaken self (λ m, (_last_pernic m, _included_ifaces m))),
      save_store_preserves_self. }
  apply preserves_bind; [apply preserves_get | intros w].
  destruct (on_update (self w)); [|apply preserves_ret].
  apply preserves_try_except; [|apply preserves_ret].
  destruct (callback_raises e); [apply preserves_raise | apply preserves_ret].
Qed.

Lemma tick_keeps_baselines (e : TickEnv) :
  keeps (λ w, baselines_match (self w)) (tick e).
Proof.
  unfold tick. apply keeps_bind; [apply measure_keeps_baselines|].
  intros [deltas raw].
  apply (keeps_of_preserves
           (λ w, (_last_pernic (self w), _included_ifaces (self w)))
           (λ v, dom v.1 = v.2)), publish_preserves_baselines.
Qed.

(** X12.  In the sampling thread the monitor keeps a baseline for exactly
    the interfaces it tracks.  This holds when the monitor is constructed
    and is kept by every tick, whether it returns or raises, and so by
    [run] as a whole.  (A preferences save refreshes the interfaces from
    another thread; what it does to a tick in progress is not covered.) *)
Theorem baselines_match_tracked_ifaces :
  (∀ r callback i c loaded,
     baselines_match (NetMonitor_init r callback i c loaded))
  ∧ (∀ e w res w',
       baselines_match (self w) → tick e w = (res, w') →
       baselines_match (self w'))
  ∧ (∀ s ticks exit_disk w res w',
       baselines_match (self w) → run s ticks exit_disk w = (res, w') →
       baselines_match (self w')).
Proof.
  split; [|split].
  - intros r callback i c loaded. unfold baselines_match. cbn. apply dom_empty_L.
  - intros e w res w' Hw Hrun. by apply (tick_keeps_baselines e w res w').
  - intros s ticks exit_disk w res w' Hw Hrun. revert Hrun Hw. unfold run.
    apply (keeps_bind (λ w, baselines_match (self w))).
    { unfold run_start. apply keeps_bind; [|intros _].
      - apply (keeps_of_preserves self baselines_match). by apply preserves_modify.
      - apply (keeps_on_self baselines_match), refresh_keeps_baselines. }
    intros _. apply keeps_bind.
    { induction ticks as [|e ticks IH]; cbn [run_loop]; [apply keeps_ret|].
      apply keeps_bind; [apply tick_keeps_baselines | intros _; exact IH]. }
    intros _. apply keeps_try_except; [|apply keeps_ret].
    apply (keeps_of_preserves self baselines_match), save_store_preserves_self.
Qed.

(** ** Eviction, for any sequence of samples *)

Lemma evict_split (tcut : Q) (hist : list (Q * Q)) :
  ∃ old, hist = old ++ evict tcut hist
         ∧ Forall (λ e, e.1 < tcut) old
         ∧ (∀ e, head (evict tcut hist) = Some e → tcut <= e.1).
Proof.
  induction hist as [|[t v] rest (old & Heq & Hold & Hhead)]; cbn [evict].
  - exists []. repeat split; [constructor | by intros e [=]].
  - destruct (Qlt_le_dec t tcut) as [Hlt|Hle].
    + exists ((t, v) :: old). split; [by rewrite Heq at 1|].
      split; [by constructor | exact Hhead].
    + exists []. repeat split; [constructor|].
      intros e [= <-]. exact Hle.
Qed.

Lemma evict_app_last (tcut : Q) (hist : list (Q * Q)) (e : Q * Q) :
  tcut <= e.1 → last (evict tcut (hist ++ [e])) = Some e.
Proof.
  intros He. induction hist as [|[t v] rest IH]; cbn [app evict].
  - destruct e as [t v]. cbn in He.
    destruct (Qlt_le_dec t tcut) as [Hlt|_]; [|reflexivity].
    exfalso. apply (Qlt_irrefl t). by eapply Qlt_le_trans.
  - destruct (Qlt_le_dec t tcut); [exact IH|].
    change ((t, v) :: rest ++ [e]) with (((t, v) :: rest) ++ [e]).
    apply last_snoc.
Qed.

(** X13.  Whatever the timestamps are, the rolling window only ever loses
    samples from its old end, and only samples older than [now - 10]: what
    is kept is a tail of the deque with the new sample appended, its oldest
    sample is not older than [now - 10], and its newest sample is the one
    just appended, so the window is never empty after a tick. *)
Theorem roll_hist_drops_only_old (now raw : Q) (hist : list (Q * Q)) :
  ∃ old, hist ++ [(now, raw)] = old ++ roll_hist now raw hist
         ∧ Forall (λ e, e.1 < now - 10) old
         ∧ (∀ e, head (roll_hist now raw hist) = Some e → now - 10 <= e.1)
         ∧ last (roll_hist now raw hist) = Some (now, raw).
Proof.
  unfold roll_hist.
  destruct (evict_split (now - 10) (hist ++ [(now, raw)])) as (old & Heq & Hold & Hhead).
  exists old. repeat split; try done.
  apply evict_app_last. apply Qminus_10_le.
Qed.

(** ** What a tick leaves alone *)

Lemma preserves_disk_on_self {A} (c : M NetMonitor A) : preserves disk (on_self c).
Proof. unfold on_self. by apply preserves_zoom. Qed.

Lemma measure_preserves_disk (e : TickEnv) : preserves disk (measure e).
Proof.
  unfold measure.
  apply preserves_bind; [apply preserves_get | intros w].
  apply preserves_bind; [by apply preserves_modify | intros _].
  apply preserves_bind; [|intros _].
  { unfold refresh_if_due.
    apply preserves_bind; [apply preserves_get | intros w0].
    destruct (Qlt_le_dec _ _); [|apply preserves_ret].
    apply preserves_bind; [|intros _]; apply preserves_disk_on_self. }
  apply preserves_bind; [apply preserves_of_result | intros pernic].
  apply preserves_bind; [apply preserves_get | intros w1].
  apply preserves_bind; [apply preserves_disk_on_self | intros _; apply preserves_ret].
Qed.

(** X14.  The ledger is written on a reduced cadence: a tick whose time has
    an integer part that is not a multiple of 10 leaves every file on disk
    as it was, whether the tick returns or raises. *)
Theorem tick_without_save_keeps_disk (e : TickEnv) (w w' : World) (r : result unit) :
  (py_int (os_time e) `mod` 10 ≠ 0)%Z →
  tick e w = (r, w') →
  disk w' = disk w.
Proof.
  intros Hdue. revert w r w'. change (preserves disk (tick e)).
  unfold tick. apply preserves_bind; [apply measure_preserves_disk|].
  intros [deltas raw]. unfold publish. cbv zeta.
  apply preserves_bind; [apply preserves_disk_on_self | intros _].
  apply preserves_bind; [apply preserves_disk_on_self | intros _].
  apply preserves_bind; [apply preserves_disk_on_self | intros _].
  apply preserves_bind; [|intros _].
  { rewrite decide_False by done. apply preserves_ret. }
  apply preserves_bind; [apply preserves_get | intros w].
  destruct (on_update (self w)); [|apply preserves_ret].
  apply preserves_try_except; [|apply preserves_ret].
  destruct (callback_raises e); [apply preserves_raise | apply preserves_ret].
Qed.

Lemma tick_without_save_keeps_disk_witness :
  disk (tick (tick_env (19 # 2) 200 60 DumpFails) world_initial).2 = ∅.
Proof.
  apply (tick_without_save_keeps_disk (tick_env (19 # 2) 200 60 DumpFails)
           world_initial _ (tick (tick_env (19 # 2) 200 60 DumpFails) world_initial).1).
  - by vm_compute.
  - by destruct (tick _ _).
Defined.

(** X15.  A failure of the notification callback is swallowed: a tick in
    which the callback raises has the same outcome and leaves the same
    world as the tick in which it returns. *)
Theorem callback_failure_is_isolated (e : TickEnv) (w : World) :
  tick (with_callback true e) w = tick (with_callback false e) w.
Proof.
  unfold tick.
  assert (Hm : measure (with_callback true e) w = measure (with_callback false e) w)
    by reflexivity.
  unfold mbind, M_bind. rewrite Hm.
  destruct (measure (with_callback false e) w) as [[[deltas raw]|ex] w1];
    [|reflexivity].
  unfold publish. cbv zeta. cbn [os_time os_today os_disk callback_raises with_callback].
  unfold mbind, M_bind.
  destruct (on_self (smooth raw.1 raw.2) w1) as [[[]|ex] w2]; [|reflexivity].
  destruct (on_self (roll (os_time e) raw.1 raw.2) w2) as [[[]|ex] w3]; [|reflexivity].
  destruct (on_self _ w3) as [[[]|ex] w4]; [|reflexivity].
  destruct (if decide _ then _ else _) as [[[]|ex] w5]; [|reflexivity].
  cbn [get]. by destruct (on_update (self w5)).
Qed.

Lemma refresh_if_due_preserves_last_time (e : TickEnv) :
  preserves last_time (refresh_if_due e).
Proof.
  unfold refresh_if_due.
  apply preserves_bind; [apply preserves_get | intros w].
  destruct (Qlt_le_dec _ _); [|apply preserves_ret].
  apply preserves_bind; [|intros _]; unfold on_self; by apply preserves_zoom.
Qed.

(** X16.  The time a tick divides by is at least a microsecond, also when
    the clock stood still or went back, and the clock reading becomes the
    next tick's [last_time].  A raw rate is positive exactly when bytes
    were counted in that direction. *)
Theorem raw_rate_positive_iff_traffic (e : TickEnv) (w w1 : World) (deltas : Z * Z)
    (raw : Q * Q) :
  measure e w = (Ok (deltas, raw), w1) →
  let elapsed := Qmax (1 # 1000000) (os_time e - last_time w) in
  1 # 1000000 <= elapsed
  ∧ raw = (raw_bps deltas.1 elapsed, raw_bps deltas.2 elapsed)
  ∧ (0 < raw.1 ↔ (0 < deltas.1)%Z)
  ∧ (0 < raw.2 ↔ (0 < deltas.2)%Z)
  ∧ last_time w1 = os_time e.
Proof.
  intros (w0 & pernic & Href & _ & H)%measure_inv. cbv zeta in H |- *.
  destruct H as (-> & -> & ->). cbn [fst snd].
  assert (Hlast : last_time (set_self (set_last_pernic
                    (sample_ifaces pernic (_included_ifaces (self w0))
                       (_last_pernic (self w0))).1.1 (self w0)) w0) = os_time e).
  { cbn. by rewrite (refresh_if_due_preserves_last_time e _ _ _ Href). }
  set (elapsed := Qmax (1 # 1000000) (os_time e - last_time w)).
  assert (Hel : 1 # 1000000 <= elapsed) by apply Q.le_max_l.
  assert (Hpos : 0 < elapsed) by (eapply Qlt_le_trans; [|exact Hel]; reflexivity).
  assert (Hraw : ∀ delta : Z, 0 < raw_bps delta elapsed ↔ (0 < delta)%Z).
  { intros delta. unfold raw_bps. rewrite Q.max_lt_iff. split.
    - intros [H0|Hd]; [by apply Qlt_irrefl in H0|].
      destruct (Z_lt_le_dec 0 delta) as [|Hle]; [done|]. exfalso.
      apply (Qlt_irrefl 0). eapply Qlt_le_trans; [exact Hd|].
      apply Qle_shift_div_r; [exact Hpos|]. rewrite Qmult_0_l.
      change 0 with (inject_Z 0). by rewrite <- Zle_Qle.
    - intros Hd. right. apply Qlt_shift_div_l; [exact Hpos|]. rewrite Qmult_0_l.
      change 0 with (inject_Z 0). by rewrite <- Zlt_Qlt. }
  split; [exact Hel|]. split; [reflexivity|].
  split; [apply Hraw|]. split; [apply Hraw | exact Hlast].
Qed.

(** The clock reads 9.5 s again: the tick divides by a microsecond.  100
    bytes were received and none sent, so the download rate is positive
    and the upload rate is zero. *)
Lemma raw_rate_positive_iff_traffic_witness :
  let e := tick_env (19 # 2) 300 60 NoFault in
  last_time world_running = 19 # 2
  ∧ ∃ raw w1, measure e world_running = (Ok ((100%Z, 0%Z), raw), w1)
              ∧ 0 < raw.1 ∧ raw.2 == 0.
Proof.
  intros e. split; [by vm_compute|].
  pose (elapsed := Qmax (1 # 1000000) ((19 # 2) - (19 # 2))).
  assert (Hm : measure e world_running
               = (Ok ((100%Z, 0%Z), (raw_bps 100 elapsed, raw_bps 0 elapsed)),
                  (measure e world_running).2)) by (by vm_compute).
  eexists _, _. split; [exact Hm|].
  destruct (raw_rate_positive_iff_traffic _ _ _ _ _ Hm) as (_ & _ & Hd & _ & _).
  split; [by apply Hd | by vm_compute].
Defined.

(** ** Frames of the parts of a tick *)

Section MonitorFrames.

Context {V : Type} (view : NetMonitor → V).

Lemma refresh_preserves_view stats_read counters_read :
  (∀ v m, view (set_last_pernic v m) = view m) →
  (∀ v m, view (set_included_ifaces v m) = view m) →
  preserves view (_refresh_ifaces stats_read counters_read).
Proof.
  intros H1 H2. unfold _refresh_ifaces.
  apply preserves_bind; [apply preserves_of_result | intros stats].
  apply preserves_bind; [apply preserves_of_result | intros all_counters].
  apply preserves_bind; [apply preserves_get | intros m].
  apply preserves_bind; [by apply preserves_modify | intros _].
  by apply preserves_modify.
Qed.

Lemma measure_preserves_view (e : TickEnv) :
  (∀ v m, view (set_last_pernic v m) = view m) →
  (∀ v m, view (set_included_ifaces v m) = view m) →
  (∀ v m, view (set_last_iface_refresh v m) = view m) →
  preserves (λ w, view (self w)) (measure e).
Proof.
  intros H1 H2 H3. unfold measure.
  apply preserves_bind; [apply preserves_get | intros w].
  apply preserves_bind; [by apply preserves_modify | intros _].
  apply preserves_bind; [|intros _].
  { unfold refresh_if_due.
    apply preserves_bind; [apply preserves_get | intros w0].
    destruct (Qlt_le_dec _ _); [|apply preserves_ret].
    apply preserves_bind; [|intros _].
    - by apply (preserves_on_self view), refresh_preserves_view.
    - apply (preserves_on_self view). by apply preserves_modify. }
  apply preserves_bind; [apply preserves_of_result | intros pernic].
  apply preserves_bind; [apply preserves_get | intros w1].
  apply preserves_bind; [|intros _; apply preserves_ret].
  apply (preserves_on_self view). by apply preserves_modify.
Qed.

Lemma smooth_preserves_view (raw_down raw_up : Q) :
  (∀ a b m, view (set_ema_bps a b m) = view m) →
  (∀ a b m, view (set_current_bps a b m) = view m) →
  preserves view (smooth raw_down raw_up).
Proof.
  intros H1 H2. unfold smooth.
  apply preserves_bind; [apply preserves_get | intros m].
  destruct (Qlt_le_dec _ _); [|by apply preserves_modify].
  apply preserves_bind; [|intros _].
  - destruct (_ema_down_bps m); [|by apply preserves_modify].
    destruct (_ema_up_bps m); [by apply preserves_modify|].
    apply preserves_bind; [by apply preserves_modify | intros _].
    apply preserves_raise.
  - apply preserves_bind; [apply preserves_get | intros m'].
    by apply preserves_modify.
Qed.

Lemma roll_preserves_view (now raw_down raw_up : Q) :
  (∀ a b m, view (set_hist a b m) = view m) →
  (∀ a b m, view (set_avg_bps_10s a b m) = view m) →
  preserves view (roll now raw_down raw_up).
Proof.
  intros H1 H2. unfold roll.
  apply preserves_bind; [apply preserves_get | intros m].
  apply preserves_bind; [by apply preserves_modify | intros _].
  by apply preserves_modify.
Qed.

End MonitorFrames.

(** The last steps of [publish]: periodic save and callback. *)
Lemma publish_end_preserves_self (e : TickEnv) :
  preserves self
    ((if decide (py_int (os_time e) `mod` 10 = 0)%Z then save_store (os_disk e)
      else mret tt);;
     w ← get;
     if on_update (self w) then
       try_except (if callback_raises e then raise TypeError else mret tt) (mret tt)
     else mret tt).
Proof.
  apply preserves_bind; [|intros _].
  { destruct (decide _); [apply save_store_preserves_self | apply preserves_ret]. }
  apply preserves_bind; [apply preserves_get | intros w].
  destruct (on_update (self w)); [|apply preserves_ret].
  apply preserves_try_except; [|apply preserves_ret].
  destruct (callback_raises e); [apply preserves_raise | apply preserves_ret].
Qed.

(** ** The ledger after a tick *)

Lemma add_usage_returns (clock dt : datetime) (d u : Z) (s s' : UsageStore) :
  add_usage clock dt d u s = (Ok tt, s') →
  totals_of_day s' (today_key clock (Some dt))
  = {| download_bytes :=
         download_bytes (totals_of_day s (today_key clock (Some dt))) + Z.max 0 d;
       upload_bytes :=
         upload_bytes (totals_of_day s (today_key clock (Some dt))) + Z.max 0 u |}
  ∧ ∀ k, k ≠ today_key clock (Some dt) → by_day s' !! k = by_day s !! k.
Proof.
  intros Hadd. pose proof (add_usage_cases clock dt d u s) as Hc. cbv zeta in Hc.
  unfold totals_of_day.
  destruct (by_day s !! today_key clock (Some dt)) as [e|] eqn:He.
  - destruct (e !! "down") as [a|] eqn:Ha; [|congruence].
    destruct (e !! "up") as [b|] eqn:Hb; [|congruence].
    rewrite Hc in Hadd. injection Hadd as <-. cbn [by_day].
    rewrite lookup_insert_eq, entry_totals_updated.
    unfold entry_totals. rewrite Ha, Hb. split; [done|].
    intros k Hk. by rewrite lookup_insert_ne.
  - rewrite Hc in Hadd. injection Hadd as <-. cbn [by_day].
    rewrite lookup_insert_eq, entry_totals_updated. split; [done|].
    intros k Hk. by rewrite lookup_insert_ne.
Qed.

(** X17.  A tick that returns has added to the ledger exactly the deltas it
    measured: the totals of the current day grow by [down_delta] and
    [up_delta], and no other day changes. *)
Theorem tick_accounts_measured_deltas (e : TickEnv) (w w1 w' : World)
    (deltas : Z * Z) (raw : Q * Q) :
  measure e w = (Ok (deltas, raw), w1) →
  tick e w = (Ok tt, w') →
  let dkey := today_key (os_today e) (Some (os_today e)) in
  totals_of_day (store (self w')) dkey
  = {| download_bytes :=
         download_bytes (totals_of_day (store (self w)) dkey) + deltas.1;
       upload_bytes :=
         upload_bytes (totals_of_day (store (self w)) dkey) + deltas.2 |}
  ∧ ∀ k, k ≠ dkey → by_day (store (self w')) !! k = by_day (store (self w)) !! k.
Proof.
  intros Hm. rewrite (tick_after_measure _ _ _ _ _ Hm).
  assert (Hnn : (0 ≤ deltas.1)%Z ∧ (0 ≤ deltas.2)%Z).
  { apply measure_inv in Hm as (w0 & pernic & _ & _ & H). cbv zeta in H.
    destruct H as (-> & _). apply sample_ifaces_nonneg. }
  assert (Hs1 : store (self w1) = store (self w)).
  { by apply (measure_preserves_view store e (λ _ _, eq_refl) (λ _ _, eq_refl)
                 (λ _ _, eq_refl)) in Hm. }
  unfold publish. cbv zeta. unfold mbind at 1, M_bind at 1.
  destruct (on_self (smooth raw.1 raw.2) w1) as [[[]|ex] w2] eqn:H2; [|discriminate].
  apply (preserves_on_self store _
           (smooth_preserves_view store _ _ (λ _ _ _, eq_refl) (λ _ _ _, eq_refl)))
    in H2.
  unfold mbind at 1, M_bind at 1.
  destruct (on_self (roll (os_time e) raw.1 raw.2) w2) as [[[]|ex] w3] eqn:H3;
    [|discriminate].
  apply (preserves_on_self store _
           (roll_preserves_view store _ _ _ (λ _ _ _, eq_refl) (λ _ _ _, eq_refl)))
    in H3.
  unfold mbind at 1, M_bind at 1.
  destruct (on_self _ w3) as [[[]|ex] w4] eqn:H4; [|discriminate].
  intros H5. apply publish_end_preserves_self in H5.
  revert H4. unfold on_self, zoom.
  destruct (add_usage (os_today e) (os_today e) deltas.1 deltas.2 (store (self w3)))
    as [[[]|ex] s4] eqn:Hadd; [|discriminate].
  intros [= <-]. rewrite H5. cbn [self set_self store set_store].
  apply add_usage_returns in Hadd as [Htot Hother].
  cbn in H2, H3. rewrite H3, H2, Hs1 in Htot, Hother. cbv zeta.
  rewrite Htot. split; [|exact Hother].
  destruct Hnn. by rewrite !Z.max_r.
Qed.

Lemma tick_accounts_measured_deltas_witness :
  let e := tick_env 11 1400 90 NoFault in
  totals_of_day (store (self world_running)) "2024-03-07"
  = {| download_bytes := 100; upload_bytes := 10 |}
  ∧ totals_of_day (store (self (tick e world_running).2)) "2024-03-07"
    = {| download_bytes := 100 + 1200; upload_bytes := 10 + 30 |}.
Proof.
  intros e. split; [by vm_compute|].
  apply (tick_accounts_measured_deltas e world_running (measure e world_running).2
           (tick e world_running).2 (1200%Z, 30%Z) (2400 # 3, 60 # 3));
    by vm_compute.
Defined.

(** ** Rates are never negative *)

Lemma keeps_respecting {S A V} (view : S → V) (inv : S → Prop) (c : M S A) :
  (∀ s s', view s' = view s → inv s → inv s') →
  preserves view c → keeps inv c.
Proof. intros Hv Hc s r s' H Hs. eapply Hv; [|exact Hs]. by eapply Hc. Qed.

Lemma rates_nonneg_respects (m m' : NetMonitor) :
  rates_view m' = rates_view m → rates_nonneg m → rates_nonneg m'.
Proof.
  unfold rates_view, rates_nonneg. intros [= -> -> -> -> -> -> -> ->]. done.
Qed.

Lemma alpha_bounds (x : Q) :
  0 <= Qmin 1 (Qmax (1 # 100) x) ∧ Qmin 1 (Qmax (1 # 100) x) <= 1.
Proof.
  split; [|apply Q.le_min_l].
  apply Q.min_glb; [discriminate|].
  eapply Qle_trans; [|apply Q.le_max_l]. discriminate.
Qed.

Lemma ema_nonneg (alpha raw ema : Q) :
  0 <= alpha → alpha <= 1 → 0 <= raw → 0 <= ema →
  0 <= alpha * raw + (1 - alpha) * ema.
Proof.
  intros Ha0 Ha1 Hr He.
  assert (H1 : 0 <= 1 - alpha).
  { unfold Qminus. rewrite <- (Qplus_opp_r alpha). by apply Qplus_le_l. }
  rewrite <- (Qplus_0_l 0). apply Qplus_le_compat; by apply Qmult_le_0_compat.
Qed.

Lemma smooth_keeps_rates (raw_down raw_up : Q) :
  0 <= raw_down → 0 <= raw_up →
  keeps rates_nonneg (smooth raw_down raw_up).
Proof.
  intros Hd Hu m r m' Hrun (Hcd & Hcu & Hed & Heu & Hhd & Hhu & Had & Hau).
  revert Hrun. unfold smooth. unfold_M.
  destruct (Qlt_le_dec 0 (Qmax 0 (smoothing_seconds (config m)))) as [Hs|Hs].
  - destruct (alpha_bounds (interval m / Qmax 0 (smoothing_seconds (config m))))
      as [Ha0 Ha1].
    destruct (_ema_down_bps m) as [ed|] eqn:Ed.
    + destruct (_ema_up_bps m) as [eu|] eqn:Eu.
      * intros [= _ <-]. unfold rates_nonneg. cbn.
        repeat split; try done.
        -- apply ema_nonneg; auto.
        -- apply ema_nonneg; auto.
        -- intros x [= <-]. apply ema_nonneg; auto.
        -- intros x [= <-]. apply ema_nonneg; auto.
      * intros [= _ <-]. unfold rates_nonneg. cbn.
        repeat split; try done.
        intros x [= <-]. apply ema_nonneg; auto.
    + intros [= _ <-]. unfold rates_nonneg. cbn.
      repeat split; try done; by intros x [= <-].
  - intros [= _ <-]. unfold rates_nonneg. cbn. repeat split; done.
Qed.

Lemma evict_Forall (P : Q * Q → Prop) (tcut : Q) (hist : list (Q * Q)) :
  Forall P hist → Forall P (evict tcut hist).
Proof.
  induction 1 as [|[t v] rest Hx Hrest IH]; cbn [evict]; [constructor|].
  destruct (Qlt_le_dec t tcut); [exact IH | by constructor].
Qed.

Lemma foldl_sum_nonneg (hist : list (Q * Q)) (a : Q) :
  0 <= a → Forall (λ e, 0 <= e.2) hist → 0 <= foldl (λ acc e, acc + e.2) a hist.
Proof.
  intros Ha H. revert a Ha. induction H as [|e rest He Hrest IH]; intros a Ha; cbn.
  - exact Ha.
  - apply IH. rewrite <- (Qplus_0_l 0). by apply Qplus_le_compat.
Qed.

Lemma mean_bps_nonneg (hist : list (Q * Q)) :
  Forall (λ e, 0 <= e.2) hist → 0 <= mean_bps hist.
Proof.
  intros H. destruct hist as [|e rest]; [discriminate|].
  unfold mean_bps. apply Qle_shift_div_l.
  - change 0 with (inject_Z 0). rewrite <- Zlt_Qlt. cbn [length]. lia.
  - rewrite Qmult_0_l. by apply foldl_sum_nonneg.
Qed.

Lemma roll_hist_Forall (now raw : Q) (hist : list (Q * Q)) :
  0 <= raw → Forall (λ e, 0 <= e.2) hist →
  Forall (λ e, 0 <= e.2) (roll_hist now raw hist).
Proof.
  intros Hr H. unfold roll_hist. apply evict_Forall, Forall_app.
  split; [exact H | by repeat constructor].
Qed.

Lemma roll_keeps_rates (now raw_down raw_up : Q) :
  0 <= raw_down → 0 <= raw_up →
  keeps rates_nonneg (roll now raw_down raw_up).
Proof.
  intros Hd Hu m r m' Hrun (Hcd & Hcu & Hed & Heu & Hhd & Hhu & Had & Hau).
  revert Hrun. unfold roll. unfold_M. intros [= _ <-].
  unfold rates_nonneg. cbn.
  repeat split; try done;
    try (by apply roll_hist_Forall); by apply mean_bps_nonneg, roll_hist_Forall.
Qed.

Lemma publish_keeps_rates (e : TickEnv) (deltas : Z * Z) (raw : Q * Q) :
  0 <= raw.1 → 0 <= raw.2 →
  keeps (λ w, rates_nonneg (self w)) (publish e deltas raw).
Proof.
  intros Hd Hu. unfold publish. cbv zeta.
  apply keeps_bind; [|intros _].
  { by apply (keeps_on_self rates_nonneg), smooth_keeps_rates. }
  apply keeps_bind; [|intros _].
  { by apply (keeps_on_self rates_nonneg), roll_keeps_rates. }
  apply keeps_bind; [|intros _].
  { apply (keeps_respecting (λ w, rates_view (self w))).
    - intros w w'. apply rates_nonneg_respects.
    - apply (preserves_on_self rates_view). by apply preserves_zoom. }
  apply (keeps_respecting self); [by intros w w' -> | apply publish_end_preserves_self].
Qed.

Lemma tick_keeps_rates (e : TickEnv) :
  keeps (λ w, rates_nonneg (self w)) (tick e).
Proof.
  intros w r w' Ht Hw.
  destruct (measure e w) as [[[deltas raw]|ex] w1] eqn:Hm.
  - assert (Hw1 : rates_nonneg (self w1)).
    { eapply rates_nonneg_respects; [|exact Hw].
      by apply (measure_preserves_view rates_view e (λ _ _, eq_refl) (λ _ _, eq_refl)
                  (λ _ _, eq_refl)) in Hm. }
    rewrite (tick_after_measure _ _ _ _ _ Hm) in Ht.
    apply measure_inv in Hm as (w0 & pernic & _ & _ & H). cbv zeta in H.
    destruct H as (_ & -> & _).
    eapply publish_keeps_rates; [| |exact Ht|exact Hw1]; apply raw_bps_nonneg.
  - unfold tick in Ht. rewrite (bind_raise _ _ _ _ _ Hm) in Ht. injection Ht as _ <-.
    eapply rates_nonneg_respects; [|exact Hw].
    by apply (measure_preserves_view rates_view e (λ _ _, eq_refl) (λ _ _, eq_refl)
                (λ _ _, eq_refl)) in Hm.
Qed.

Lemma step_keeps_rates (ev : event) :
  keeps (λ w, rates_nonneg (self w)) (step ev).
Proof.
  destruct ev as [e|smoothing sel|stats_read counters_read]; cbn [step].
  - apply tick_keeps_rates.
  - apply (keeps_respecting (λ w, rates_view (self w))).
    + intros w w'. apply rates_nonneg_respects.
    + apply (preserves_on_self rates_view). by apply preserves_modify.
  - apply keeps_try_except; [|apply keeps_ret].
    apply (keeps_on_self rates_nonneg). unfold prefs_apply_live.
    apply keeps_bind; [|intros _].
    + intros m r m' [= _ <-] (Hcd & Hcu & _ & _ & Hhd & Hhu & Had & Hau).
      unfold rates_nonneg. cbn. repeat split; try done.
    + apply (keeps_respecting rates_view); [apply rates_nonneg_respects|].
      by apply refresh_preserves_view.
Qed.

(** X18.  No rate the monitor exposes is ever negative.  The current rates,
    the stored EMA values, the samples of both rolling windows and the two
    10 s averages are non-negative when the monitor is constructed, and
    stay so through every tick and every preferences save, whether they
    return or raise. *)
Theorem exposed_rates_never_negative :
  (∀ r callback i c loaded, rates_nonneg (NetMonitor_init r callback i c loaded))
  ∧ (∀ evs w res w',
       rates_nonneg (self w) → steps evs w = (res, w') → rates_nonneg (self w'))
  ∧ (∀ m, rates_nonneg m →
       0 <= current_down_bps m ∧ 0 <= current_up_bps m
       ∧ 0 <= avg_down_bps_10s m ∧ 0 <= avg_up_bps_10s m).
Proof.
  split; [|split].
  - intros r callback i c loaded. unfold rates_nonneg. cbn.
    repeat split; try done; constructor.
  - intros evs. induction evs as [|ev evs IH]; intros w res w' Hw.
    + by intros [= _ <-].
    + cbn [steps]. intros Hrun. revert Hrun Hw.
      apply (keeps_bind (λ w, rates_nonneg (self w))).
      * apply step_keeps_rates.
      * intros _ w1 r1 w2 H1 Hw1. by eapply IH.
  - intros m (Hcd & Hcu & _ & _ & _ & _ & Had & Hau). done.
Qed.

(** ** The EMA step *)

(** X19.  With smoothing on and EMA state present, a tick's smoothing step
    replaces the EMA by [alpha * raw + (1 - alpha) * ema] and exposes it as
    the current rate, where [alpha] is [interval / smoothing_seconds] kept
    within 0.01 and 1.  When [smoothing_seconds] is not longer than the
    poll interval the factor is 1 and the exposed rate is the raw rate. *)
Theorem ema_step_spec (raw_down raw_up ema_down ema_up : Q) (m : NetMonitor) :
  0 < smoothing_seconds (config m) →
  _ema_down_bps m = Some ema_down →
  _ema_up_bps m = Some ema_up →
  ∃ alpha m',
    smooth raw_down raw_up m = (Ok tt, m')
    ∧ alpha == Qmin 1 (Qmax (1 # 100) (interval m / smoothing_seconds (config m)))
    ∧ 1 # 100 <= alpha ∧ alpha <= 1
    ∧ _ema_down_bps m' = Some (alpha * raw_down + (1 - alpha) * ema_down)
    ∧ _ema_up_bps m' = Some (alpha * raw_up + (1 - alpha) * ema_up)
    ∧ current_down_bps m' = alpha * raw_down + (1 - alpha) * ema_down
    ∧ current_up_bps m' = alpha * raw_up + (1 - alpha) * ema_up
    ∧ (smoothing_seconds (config m) <= interval m →
         alpha == 1
         ∧ current_down_bps m' == raw_down ∧ current_up_bps m' == raw_up).
Proof.
  intros Hs Hd Hu.
  set (s := Qmax 0 (smoothing_seconds (config m))).
  set (alpha := Qmin 1 (Qmax (1 # 100) (interval m / s))).
  assert (Hspos : 0 < s).
  { eapply Qlt_le_trans; [exact Hs | apply Q.le_max_r]. }
  assert (Hseq : s == smoothing_seconds (config m)).
  { unfold s. apply Q.max_r. by apply Qlt_le_weak. }
  assert (Ha1 : alpha <= 1) by apply Q.le_min_l.
  assert (Ha100 : 1 # 100 <= alpha).
  { apply Q.min_glb; [discriminate | apply Q.le_max_l]. }
  exists alpha. eexists. split.
  { apply (smooth_resume raw_down raw_up ema_down ema_up m Hs Hd Hu). }
  cbn. fold s. fold alpha.
  split. { unfold alpha. by rewrite Hseq. }
  do 6 (split; [done|]).
  intros Hle.
  assert (Hone : alpha == 1).
  { apply Q.min_l. eapply Qle_trans; [|apply Q.le_max_r].
    apply Qle_shift_div_l; [exact Hspos|]. rewrite Qmult_1_l. by rewrite Hseq. }
  split; [exact Hone|]. split; rewrite Hone; ring.
Qed.

(** Smoothing over 1 s at the 0.5 s interval: the factor is 0.5, and an EMA
    of 100 B/s meeting a raw rate of 200 B/s becomes 150 B/s. *)
Lemma ema_step_spec_witness :
  let m := set_ema_bps (Some 100) (Some 10)
             (NetMonitor_init repo_example true POLL_INTERVAL_SEC
                {| smoothing_seconds := 1; nic_name := None |} UsageStore_new) in
  ∃ alpha m', smooth 200 20 m = (Ok tt, m')
              ∧ alpha == 1 # 2
              ∧ current_down_bps m' == 150
              ∧ _ema_down_bps m' = Some (current_down_bps m').
Proof.
  intros m.
  destruct (ema_step_spec 200 20 100 10 m)
    as (alpha & m' & Hrun & Ha & _ & _ & Hed & _ & Hcd & _);
    [reflexivity | reflexivity | reflexivity |].
  exists alpha, m'. split; [exact Hrun|].
  assert (Hhalf : alpha == 1 # 2) by (rewrite Ha; reflexivity).
  split; [exact Hhalf|]. split.
  - rewrite Hcd, Hhalf. reflexivity.
  - by rewrite Hed, Hcd.
Defined.

(** ** Day keys *)

Lemma digit_inj (a b : nat) : digit a = digit b → (a `mod` 10 = b `mod` 10)%nat.
Proof.
  unfold digit. intros H.
  apply (f_equal nat_of_ascii) in H.
  rewrite !nat_ascii_embedding in H.
  - lia.
  - pose proof (Nat.mod_upper_bound b 10). lia.
  - pose proof (Nat.mod_upper_bound a 10). lia.
Qed.

Lemma digits2 (n : nat) :
  (n < 100 → n = 10 * ((n / 10) `mod` 10) + n `mod` 10)%nat.
Proof.
  intros H. rewrite (Nat.mod_small (n / 10)).
  - apply Nat.div_mod_eq.
  - apply Nat.Div0.div_lt_upper_bound. lia.
Qed.

Lemma digits4 (n : nat) :
  (n < 10 * 1000 →
   n = 1000 * ((n / 1000) `mod` 10) + 100 * ((n / 100) `mod` 10)
       + 10 * ((n / 10) `mod` 10) + n `mod` 10)%nat.
Proof.
  intros H.
  assert (H2 : (n / 100 = (n / 10) / 10)%nat)
    by (rewrite Nat.Div0.div_div; reflexivity).
  assert (H3 : (n / 1000 = (n / 100) / 10)%nat)
    by (rewrite Nat.Div0.div_div; reflexivity).
  pose proof (Nat.div_mod_eq n 10) as E1.
  pose proof (Nat.div_mod_eq (n / 10) 10) as E2.
  pose proof (Nat.div_mod_eq (n / 100) 10) as E3.
  assert (E4 : ((n / 1000) `mod` 10 = n / 1000)%nat).
  { apply Nat.mod_small, Nat.Div0.div_lt_upper_bound. lia. }
  rewrite <- H2 in E2. rewrite <- H3 in E3. rewrite E4.
  generalize dependent (n / 1000)%nat. generalize dependent (n / 100)%nat.
  generalize dependent (n / 10)%nat. intros. lia.
Qed.

Ltac fold_div :=
  repeat match goal with
    | H : context [(Nat.divmod ?x 999 0 999).1] |- _ =>
        change ((Nat.divmod x 999 0 999).1) with (x / 1000)%nat in H
    | H : context [(Nat.divmod ?x 99 0 99).1] |- _ =>
        change ((Nat.divmod x 99 0 99).1) with (x / 100)%nat in H
    | H : context [(Nat.divmod ?x 9 0 9).1] |- _ =>
        change ((Nat.divmod x 9 0 9).1) with (x / 10)%nat in H
    end.

(** X20.  Distinct calendar days never share a ledger entry: on dates with
    a year below 10000, a month below 100 and a day below 100 the day key
    determines the date.  Month keys determine year and month. *)
Theorem today_key_injective (clock dt1 dt2 : datetime) :
  (year dt1 < 10 * 1000)%nat → (month dt1 < 100)%nat → (day dt1 < 100)%nat →
  (year dt2 < 10 * 1000)%nat → (month dt2 < 100)%nat → (day dt2 < 100)%nat →
  (today_key clock (Some dt1) = today_key clock (Some dt2) → dt1 = dt2)
  ∧ (month_key clock (Some dt1) = month_key clock (Some dt2) →
       year dt1 = year dt2 ∧ month dt1 = month dt2).
Proof.
  intros Hy1 Hm1 Hd1 Hy2 Hm2 Hd2.
  destruct dt1 as [y1 m1 d1], dt2 as [y2 m2 d2]. cbn [year month day] in *.
  unfold today_key, month_key. cbn [default from_option id].
  cbv [strftime_Ymd strftime_Ym dec4 dec2 append year month day].
  split.
  - intros [= Ha Hb Hc Hd He Hf Hg Hh].
    apply digit_inj in Ha, Hb, Hc, Hd, He, Hf, Hg, Hh. fold_div.
    pose proof (digits4 y1 Hy1) as Ey1. pose proof (digits4 y2 Hy2) as Ey2.
    pose proof (digits2 m1 Hm1) as Em1. pose proof (digits2 m2 Hm2) as Em2.
    pose proof (digits2 d1 Hd1) as Ed1. pose proof (digits2 d2 Hd2) as Ed2.
    rewrite Ha, Hb, Hc, Hd in Ey1. rewrite He, Hf in Em1. rewrite Hg, Hh in Ed1.
    f_equal; congruence.
  - intros [= Ha Hb Hc Hd He Hf].
    apply digit_inj in Ha, Hb, Hc, Hd, He, Hf. fold_div.
    pose proof (digits4 y1 Hy1) as Ey1. pose proof (digits4 y2 Hy2) as Ey2.
    pose proof (digits2 m1 Hm1) as Em1. pose proof (digits2 m2 Hm2) as Em2.
    rewrite Ha, Hb, Hc, Hd in Ey1. rewrite He, Hf in Em1.
    split; congruence.
Qed.

Lemma today_key_injective_witness :
  let clock := {| year := 2024; month := 3; day := 7 |} in
  let dt1 := {| year := 2024; month := 3; day := 7 |} in
  let dt2 := {| year := 2024; month := 3; day := 17 |} in
  (today_key clock (Some dt1) = today_key clock (Some dt2) → dt1 = dt2)
  ∧ (month_key clock (Some dt1) = month_key clock (Some dt2) →
       year dt1 = year dt2 ∧ month dt1 = month dt2).
Proof.
  intros clock dt1 dt2.
  apply (today_key_injective clock dt1 dt2); cbn; lia.
Defined.

(** ** Unit scaling *)

Lemma scale_loop_spec (above : nat) (v : Q) (idx : nat) :
  let r := scale_loop above v idx in
  (idx ≤ r.2 ≤ idx + above)%nat
  ∧ r.1 * inject_Z (1024 ^ Z.of_nat (r.2 - idx)) == v
  ∧ ((r.2 < idx + above)%nat → r.1 < 1024)
  ∧ (1 <= v → 1 <= r.1).
Proof.
  revert v idx. induction above as [|above IH]; intros v idx; cbn [scale_loop].
  - cbv zeta. cbn [fst snd]. replace (idx - idx)%nat with 0%nat by lia.
    repeat split; try lia; [apply Qmult_1_r | done].
  - destruct (Qlt_le_dec v 1024) as [Hlt|Hle].
    + cbv zeta. cbn [fst snd]. replace (idx - idx)%nat with 0%nat by lia.
      repeat split; try lia; [apply Qmult_1_r | done | done].
    + destruct (IH (v / 1024) (S idx)) as ((Hlo & Hhi) & Hmul & Hlt & Hone).
      cbv zeta in *. set (r := scale_loop above (v / 1024) (S idx)) in *.
      repeat split; try lia.
      * replace (r.2 - idx)%nat with (S (r.2 - S idx)) by lia.
        rewrite Nat2Z.inj_succ, Z.pow_succ_r by lia.
        rewrite inject_Z_mult.
        assert (H : r.1 * (inject_Z 1024 * inject_Z (1024 ^ Z.of_nat (r.2 - S idx)))
                    == (r.1 * inject_Z (1024 ^ Z.of_nat (r.2 - S idx))) * 1024) by ring.
        rewrite H, Hmul. field.
      * intros H. apply Hlt. lia.
      * intros _. apply Hone. apply Qle_shift_div_l; [reflexivity|].
        by rewrite Qmult_1_l.
Qed.

(** X21.  The unit loop of [human_readable_speed] and [fmt_bytes] picks one
    of the five units and scales the value to it exactly: the scaled value
    times [1024 ^ idx] is the input.  A value below 1024 stays as it is;
    otherwise the scaled value is at least 1, and it is below 1024 unless
    the largest unit was reached. *)
Theorem scale_units_spec (v : Q) :
  let r := scale_units v in
  (r.2 ≤ 4)%nat
  ∧ r.1 * inject_Z (1024 ^ Z.of_nat r.2) == v
  ∧ ((r.2 < 4)%nat → r.1 < 1024)
  ∧ (v < 1024 → r = (v, 0%nat))
  ∧ (1024 <= v → 1 <= r.1 ∧ (1 ≤ r.2)%nat).
Proof.
  cbv zeta. unfold scale_units.
  destruct (scale_loop_spec 4 v 0) as ((_ & Hhi) & Hmul & Hlt & Hone).
  cbv zeta in *. rewrite Nat.sub_0_r in Hmul.
  split; [exact Hhi|]. split; [exact Hmul|]. split; [exact Hlt|]. split.
  - intros Hv. cbn [scale_loop]. destruct (Qlt_le_dec v 1024) as [_|Hle]; [done|].
    exfalso. apply (Qlt_irrefl v). by eapply Qlt_le_trans.
  - intros Hv. split.
    + apply Hone. eapply Qle_trans; [|exact Hv]. discriminate.
    + cbn [scale_loop]. destruct (Qlt_le_dec v 1024) as [Hlt'|_].
      * exfalso. apply (Qlt_irrefl v). by eapply Qlt_le_trans.
      * destruct (scale_loop_spec 3 (v / 1024) 1) as ((Hlo' & _) & _). exact Hlo'.
Qed.

Lemma scale_units_spec_witness :
  scale_units 1536 = (1536 / 1024, 1%nat)
  ∧ (1536 / 1024) * inject_Z (1024 ^ 1) == 1536
  ∧ scale_units 1000 = (1000, 0%nat).
Proof.
  destruct (scale_units_spec 1000) as (_ & _ & _ & Hsmall & _).
  split; [reflexivity|]. split; [reflexivity|].
  apply Hsmall. reflexivity.
Defined.

(** ** Exceptions and the final save *)

(** X22.  The final save is reached only on a clean exit: [run] raises
    exactly when its start or one of its ticks raised, and then it ends in
    the world that exception left, without the final save; what the disk
    would have done to that save makes no difference. *)
Theorem crash_skips_final_save (s : StartEnv) (ticks : list TickEnv)
    (exit_disk : disk_fault) (w w' : World) (ex : exn) :
  run s ticks exit_disk w = (Raise ex, w')
  ↔ (run_start s;; run_loop ticks) w = (Raise ex, w').
Proof.
  unfold run. unfold mbind, M_bind.
  destruct (run_start s w) as [[[]|ex0] w0]; [|done].
  destruct (run_loop ticks w0) as [[[]|ex1] w1]; [|done].
  unfold try_except. destruct (save_store exit_disk w1) as [[[]|ex2] w2]; done.
Qed.

(** ** A preferences save that ends early *)

Lemma on_save_aborted (smoothing : Q) (sel : option string) (ex : exn)
    stats_read counters_read (w : World) :
  on_save_clicked smoothing sel (Raise ex) stats_read counters_read w =
  (Ok tt, set_self (set_config {| smoothing_seconds := smoothing; nic_name := sel |}
                      (self w)) w).
Proof. reflexivity. Qed.

(** A save that reaches "Apply live" resets the EMA state, also when the
    interface refresh that follows raises. *)
Lemma on_save_completed (smoothing : Q) (sel : option string)
    stats_read counters_read (w w' : World) (r : result unit) :
  on_save_clicked smoothing sel (Ok tt) stats_read counters_read w = (r, w') →
  r = Ok tt
  ∧ _ema_down_bps (self w') = None ∧ _ema_up_bps (self w') = None
  ∧ smoothing_seconds (config (self w')) = smoothing.
Proof.
  unfold on_save_clicked, on_save, prefs_write_config, prefs_apply_live, try_except.
  set (m0 := set_ema_bps None None
               (set_config {| smoothing_seconds := smoothing; nic_name := sel |}
                  (self w))).
  destruct (_refresh_ifaces stats_read counters_read m0) as [r1 m1] eqn:Hr.
  assert (Hrun : on_self (modify (set_config
                            {| smoothing_seconds := smoothing; nic_name := sel |});;
                          of_result (Ok tt);;
                          modify (set_ema_bps None None);;
                          _refresh_ifaces stats_read counters_read) w
                 = (r1, set_self m1 w)).
  { apply on_self_run. unfold_M. exact Hr. }
  rewrite Hrun.
  apply refresh_preserves_smoothing, smoothing_view_inj in Hr
    as (_ & _ & Hd & Hu & Hc).
  destruct r1 as [[]|ex]; intros [= <- <-]; cbn [self set_self];
    by rewrite Hd, Hu, Hc.
Qed.

(** Ticks made while smoothing is off never touch the EMA state. *)
Lemma run_loop_disabled_keeps_ema (ticks : list TickEnv) (w w' : World)
    (r : result unit) :
  smoothing_seconds (config (self w)) <= 0 →
  run_loop ticks w = (r, w') →
  _ema_down_bps (self w') = _ema_down_bps (self w)
  ∧ _ema_up_bps (self w') = _ema_up_bps (self w)
  ∧ config (self w') = config (self w).
Proof.
  revert w. induction ticks as [|e ticks IH]; intros w Hs; cbn [run_loop].
  - by intros [= _ <-].
  - destruct (tick e w) as [[[]|ex] w1] eqn:Ht.
    + rewrite (bind_ok _ _ _ _ _ Ht). intros Hrest.
      destruct (tick_disabled_keeps_ema _ _ _ _ Hs Ht) as (Hd & Hu & Hc).
      rewrite <- Hc in Hs. destruct (IH _ Hs Hrest) as (Hd' & Hu' & Hc').
      by rewrite Hd', Hu', Hc', Hd, Hu, Hc.
    + rewrite (bind_raise _ _ _ _ _ Ht). intros [= _ <-].
      by apply (tick_disabled_keeps_ema e w w1 (Raise ex)).
Qed.

(** A tick whose measurement returned, with smoothing enabled and EMA
    state present: the state is carried on. *)
Lemma tick_resume (e : TickEnv) (w w1 w' : World) (deltas : Z * Z) (raw : Q * Q)
    (r : result unit) (x y : Q) :
  0 < smoothing_seconds (config (self w)) →
  _ema_down_bps (self w) = Some x →
  _ema_up_bps (self w) = Some y →
  measure e w = (Ok (deltas, raw), w1) →
  tick e w = (r, w') →
  let alpha :=
    Qmin 1 (Qmax (1 # 100)
              (interval (self w) / Qmax 0 (smoothing_seconds (config (self w))))) in
  smoothing_view (self w') =
  (alpha * raw.1 + (1 - alpha) * x, alpha * raw.2 + (1 - alpha) * y,
   Some (alpha * raw.1 + (1 - alpha) * x), Some (alpha * raw.2 + (1 - alpha) * y),
   config (self w)).
Proof.
  intros Hs Hx Hy Hm. rewrite (tick_after_measure _ _ _ _ _ Hm). intros Hp.
  destruct (smoothing_view_inj _ _ (measure_preserves_smoothing e _ _ _ Hm))
    as (_ & _ & Hed & Heu & Hc).
  pose proof (measure_preserves_view interval e
                (λ _ _, eq_refl) (λ _ _, eq_refl) (λ _ _, eq_refl) _ _ _ Hm) as Hi.
  cbn beta in Hi.
  rewrite <- Hc in Hs. rewrite <- Hed in Hx. rewrite <- Heu in Hy.
  rewrite (publish_after_smooth _ _ _ _ _ _ _
             (smooth_resume raw.1 raw.2 x y _ Hs Hx Hy) Hp).
  unfold smoothing_view. cbn. by rewrite Hc, Hi.
Qed.

(** C2 fails on the code.  The EMA state is reset in one place only, the
    "Apply live" part of [on_save], which comes after [self.config.save()];
    the tick never resets it.  Let the monitor hold EMA values [x] and [y],
    and let a save that sets [smoothing_seconds] to 0 end in
    [self.config.save()] with an exception.  Smoothing is then off, and the
    EMA state is still [x] and [y], also after any number of ticks.  When a
    save that sets a positive [smoothing_seconds] ends the same way, the
    next tick does not reseed: it exposes and stores
    [alpha * raw + (1 - alpha) * x], carrying on from the value held before
    smoothing was switched off.  What the claim says does hold on the
    other paths: a tick with [smoothing_seconds == 0] exposes its raw rate,
    and a save that reaches "Apply live" resets the state, so that the next
    tick with smoothing on seeds the EMA with its own raw sample. *)
Theorem aborted_save_keeps_stale_ema
    (x y s1 : Q) (sel0 sel1 : option string) (ex0 ex1 : exn)
    (stats0 stats1 : result (gmap string snicstats))
    (counters0 counters1 : result (gmap string snetio))
    (ticks : list TickEnv) (e : TickEnv) (w wa w1 w' : World)
    (deltas : Z * Z) (raw : Q * Q) (r : result unit) :
  _ema_down_bps (self w) = Some x →
  _ema_up_bps (self w) = Some y →
  0 < s1 →
  let w_off := (on_save_clicked 0 sel0 (Raise ex0) stats0 counters0 w).2 in
  run_loop ticks w_off = (Ok tt, wa) →
  let w_on := (on_save_clicked s1 sel1 (Raise ex1) stats1 counters1 wa).2 in
  measure e w_on = (Ok (deltas, raw), w1) →
  tick e w_on = (r, w') →
  let alpha := Qmin 1 (Qmax (1 # 100) (interval (self w_on) / Qmax 0 s1)) in
  smoothing_seconds (config (self w_off)) = 0
  ∧ _ema_down_bps (self w_off) = Some x ∧ _ema_up_bps (self w_off) = Some y
  ∧ smoothing_seconds (config (self wa)) = 0
  ∧ _ema_down_bps (self wa) = Some x ∧ _ema_up_bps (self wa) = Some y
  ∧ smoothing_seconds (config (self w_on)) = s1
  ∧ current_down_bps (self w') = alpha * raw.1 + (1 - alpha) * x
  ∧ current_up_bps (self w') = alpha * raw.2 + (1 - alpha) * y
  ∧ _ema_down_bps (self w') = Some (alpha * raw.1 + (1 - alpha) * x)
  ∧ _ema_up_bps (self w') = Some (alpha * raw.2 + (1 - alpha) * y)
  ∧ (∀ e0 w0 w0' w0'' d0 raw0 r0,
       smoothing_seconds (config (self w0)) == 0 →
       measure e0 w0 = (Ok (d0, raw0), w0') →
       tick e0 w0 = (r0, w0'') →
       current_down_bps (self w0'') = raw0.1 ∧ current_up_bps (self w0'') = raw0.2)
  ∧ (∀ s sel stats_read counters_read w2 r2 w3,
       on_save_clicked s sel (Ok tt) stats_read counters_read w2 = (r2, w3) →
       _ema_down_bps (self w3) = None ∧ _ema_up_bps (self w3) = None
       ∧ ∀ e2 d2 raw2 w4 r3 w5,
           0 < s →
           measure e2 w3 = (Ok (d2, raw2), w4) →
           tick e2 w3 = (r3, w5) →
           current_down_bps (self w5) = raw2.1 ∧ current_up_bps (self w5) = raw2.2
           ∧ _ema_down_bps (self w5) = Some raw2.1
           ∧ _ema_up_bps (self w5) = Some raw2.2).
Proof.
  intros Hx Hy Hs1 w_off Hloop w_on Hm Ht alpha.
  subst alpha w_on w_off.
  rewrite (on_save_aborted 0 sel0 ex0 stats0 counters0 w) in Hloop |- *.
  rewrite (on_save_aborted s1 sel1 ex1 stats1 counters1 wa) in Hm, Ht |- *.
  cbn [snd] in *.
  assert (Hoff : smoothing_seconds
                   (config (self (set_self
                      (set_config {| smoothing_seconds := 0; nic_name := sel0 |}
                         (self w)) w))) <= 0) by (cbn; apply Qle_refl).
  destruct (run_loop_disabled_keeps_ema _ _ _ _ Hoff Hloop) as (Hd & Hu & Hc).
  cbn [self set_self _ema_down_bps _ema_up_bps config set_config] in Hd, Hu, Hc.
  pose proof (tick_resume e
                (set_self (set_config {| smoothing_seconds := s1; nic_name := sel1 |}
                             (self wa)) wa)
                w1 w' deltas raw r x y Hs1) as Hres.
  cbn [self set_self config set_config smoothing_seconds _ema_down_bps _ema_up_bps
       interval] in Hres.
  rewrite Hd, Hu in Hres.
  specialize (Hres Hx Hy Hm Ht). cbv zeta in Hres.
  unfold smoothing_view in Hres. injection Hres as Hcd Hcu Hed Heu _.
  cbn [self set_self config set_config smoothing_seconds _ema_down_bps _ema_up_bps
       interval].
  rewrite Hc, Hd, Hu. cbn [smoothing_seconds].
  do 11 (split; [done|]).
  split.
  - intros e0 w0 w0' w0'' d0 raw0 r0 Hs0 Hm0 Ht0.
    assert (Hle : smoothing_seconds (config (self w0)) <= 0) by (by rewrite Hs0).
    pose proof (tick_bypass _ _ _ _ _ _ _ Hle Hm0 Ht0) as Hv.
    unfold smoothing_view in Hv. by injection Hv as -> -> _ _ _.
  - intros s sel stats_read counters_read w2 r2 w3 H.
    apply on_save_completed in H as (_ & Hnd & Hnu & Hsm).
    split; [exact Hnd|]. split; [exact Hnu|].
    intros e2 d2 raw2 w4 r3 w5 Hs Hm2 Ht2. rewrite <- Hsm in Hs.
    pose proof (tick_seed _ _ _ _ _ _ _ Hs Hnd Hm2 Ht2) as Hv.
    unfold smoothing_view in Hv. by injection Hv as -> -> -> -> _.
Qed.

(** The monitor smooths over 5 s and holds an EMA of 999 B/s.  Smoothing is
    switched off in a save that ends in [self.config.save()]; a tick
    follows; smoothing is switched on again (1 s) in a save that ends the
    same way.  The next tick has a raw rate of 1100 B/s and exposes
    1049.5 B/s, half way to the stale 999, not the 1100 a reseeded EMA
    would give. *)
Lemma aborted_save_keeps_stale_ema_witness :
  let w_off := (on_save_clicked 0 None (Raise OSError)
                  (Ok stats_example) (Ok counters_example) world_smoothing).2 in
  let wa := (run_loop [tick_env (3 # 2) 200 60 NoFault] w_off).2 in
  let w_on := (on_save_clicked 1 None (Raise OSError)
                 (Ok stats_example) (Ok counters_example) wa).2 in
  let e := tick_env 2 750 70 NoFault in
  _ema_down_bps (self world_smoothing) = Some 999
  ∧ smoothing_seconds (config (self wa)) = 0
  ∧ _ema_down_bps (self wa) = Some 999
  ∧ (measure e w_on).1 = Ok ((550%Z, 10%Z), (1100, 20))
  ∧ current_down_bps (self (tick e w_on).2) == 2099 # 2
  ∧ ¬ current_down_bps (self (tick e w_on).2) == 1100.
Proof.
  intros w_off wa w_on e.
  destruct (aborted_save_keeps_stale_ema 999 111 1 None None OSError OSError
              (Ok stats_example) (Ok stats_example)
              (Ok counters_example) (Ok counters_example)
              [tick_env (3 # 2) 200 60 NoFault] e world_smoothing wa
              (measure e w_on).2 (tick e w_on).2
              (550%Z, 10%Z) (1100, 20) (tick e w_on).1)
    as (_ & _ & _ & Hoff & Hd & _ & _ & Hcur & _).
  - reflexivity.
  - reflexivity.
  - reflexivity.
  - by vm_compute.
  - by vm_compute.
  - apply surjective_pairing.
  - split; [reflexivity|]. split; [exact Hoff|]. split; [exact Hd|].
    split; [by vm_compute|].
    rewrite Hcur. split; [by vm_compute|]. by vm_compute.
Defined.

(** ** A counter read that fails *)

Lemma measure_read_raises (e : TickEnv) (w : World) (ex : exn) :
  os_io_counters e = Raise ex →
  ∃ ex' w', measure e w = (Raise ex', w').
Proof.
  intros Hread. unfold measure. unfold_M.
  destruct (refresh_if_due e (set_last_time (os_time e) w)) as [[[]|ex0] w0];
    [|by eauto].
  rewrite Hread. by eauto.
Qed.

(** C4 fails on the code.  [psutil.net_io_counters] is called in the loop
    body outside any [try].  Let the thread have started and made the ticks
    [before] without an exception, and let the counter read of the next
    tick [e] raise.  Then that tick raises, and [run] ends exactly there:
    its outcome is the outcome of the tick, whatever ticks [after] would
    have followed and whatever the final save would have met.  The ledger
    and the disk are as they were before the tick; when the tick's
    interface refresh went through, the exception that leaves [run] is the
    one the read raised. *)
Theorem counter_read_failure_ends_run (s : StartEnv) (before after : list TickEnv)
    (e : TickEnv) (exit_disk : disk_fault) (w w1 : World) (ex : exn) :
  os_io_counters e = Raise ex →
  (run_start s;; run_loop before) w = (Ok tt, w1) →
  (∃ ex', (tick e w1).1 = Raise ex')
  ∧ run s (before ++ e :: after) exit_disk w = tick e w1
  ∧ store (self (tick e w1).2) = store (self w1)
  ∧ disk (tick e w1).2 = disk w1
  ∧ (∀ w0, refresh_if_due e (set_last_time (os_time e) w1) = (Ok tt, w0) →
       tick e w1 = (Raise ex, w0)).
Proof.
  intros Hread Hbefore.
  destruct (measure_read_raises e w1 ex Hread) as (ex' & w2 & Hm).
  assert (Ht : tick e w1 = (Raise ex', w2)).
  { unfold tick. by rewrite (bind_raise _ _ _ _ _ Hm). }
  rewrite Ht. cbn [fst snd].
  split; [by eexists|]. split.
  { unfold run. unfold mbind, M_bind in Hbefore |- *.
    destruct (run_start s w) as [[[]|ex0] w0]; [|discriminate].
    rewrite (run_loop_app before (e :: after) w0 w1 Hbefore).
    cbn [run_loop]. unfold mbind, M_bind. by rewrite Ht. }
  split.
  { exact (measure_preserves_view store e
             (λ _ _, eq_refl) (λ _ _, eq_refl) (λ _ _, eq_refl) _ _ _ Hm). }
  split; [exact (measure_preserves_disk e _ _ _ Hm)|].
  intros w0 Href. revert Hm. unfold measure. unfold_M. rewrite Href, Hread.
  by intros [= <- <-].
Qed.

(** The counter read of the tick at 10.25 s raises: [run] ends there with
    [OSError].  The tick at 11 s is never made ([last_time] stays at
    10.25), the final save is not attempted (nothing is on disk), and the
    usage of the first tick lives only in the ledger of the dead thread. *)
Lemma counter_read_failure_ends_run_witness :
  let out := run start_example ticks_read_fails NoFault world_initial in
  out = tick (tick_read_fails (41 # 4)) world_running
  ∧ out.1 = Raise OSError
  ∧ last_time out.2 = 41 # 4
  ∧ disk out.2 = ∅
  ∧ totals_of_day (store (self out.2)) "2024-03-07"
    = {| download_bytes := 100; upload_bytes := 10 |}.
Proof.
  split.
  - refine (proj1 (proj2 (counter_read_failure_ends_run start_example
                             [tick_env (19 # 2) 200 60 NoFault]
                             [tick_env 11 400 80 NoFault]
                             (tick_read_fails (41 # 4)) NoFault
                             world_initial world_running OSError _ _))).
    + reflexivity.
    + by vm_compute.
  - by vm_compute.
Defined.
